(** * swscale_bench: the concurrent benchmarking engine of [main.cpp]

    A shallow embedding of [thread_target], [execute] and [main], with the
    interleaving of the worker threads made explicit: a run is a shared
    state (the two atomics of [execute]), one local state per worker, and a
    schedule that picks which worker performs its next operation.

    The conversion library (libswscale / libavutil) is outside the
    repository; its answers are supplied by an oracle that may depend on
    the calling thread and on everything that happened before. Whether a
    thread can be started is the platform's answer, supplied likewise. *)

From Stdlib Require Import ZArith Lia List Bool QArith.
From stdpp Require Import base list.

Local Open Scope Z_scope.

(** ** Machine integers *)

Definition INT_MIN : Z := -2147483648.
Definition INT_MAX : Z := 2147483647.
Definition UINT_MAX : Z := 4294967295.

(** Arithmetic on [unsigned] is modulo 2^32. *)
Definition to_unsigned (z : Z) : Z := z mod 4294967296.

(** [static_cast<int>] of an unsigned value, and the two's complement
    wrap-around of [std::atomic_int] arithmetic. *)
Definition to_int (z : Z) : Z := (z + 2147483648) mod 4294967296 - 2147483648.

Definition int_range (z : Z) : Prop := INT_MIN <= z <= INT_MAX.

(** ** Operations a worker performs

    Every call into the library and every access to a shared atomic is one
    event; the constructors carry what the call returned. *)

Inductive frame := Src | Dst.

Inductive event :=
| sws_getContext (ok : bool)
| av_frame_alloc (f : frame) (ok : bool)
| av_frame_get_buffer (f : frame) (ret : Z)
| fetch_sub (pre : Z)
| sws_scale (ret : Z)
| error_store (e : Z)
| av_frame_free (f : frame)
| sws_freeContext.

(** The run's trace, newest operation first, each tagged with the index of
    the thread that performed it. *)
Definition trace := list (nat * event).

(** The library's answers. *)
Record swscale := {
  getContext_ok : nat -> trace -> bool;
  frame_alloc_ok : nat -> frame -> trace -> bool;
  get_buffer_ret : nat -> frame -> trace -> Z;
  scale_ret : nat -> trace -> Z
}.

(** ** One worker: [thread_target] *)

(** Program points of [thread_target]: the operation the worker performs
    next. *)
Inductive label :=
| L_getContext   (* line 46 *)
| L_alloc_src    (* line 49 *)
| L_alloc_dst    (* line 51 *)
| L_buffer_src   (* line 62 *)
| L_buffer_dst   (* line 64 *)
| L_claim        (* line 68 *)
| L_scale        (* line 71 *)
| L_fail         (* line 77 *)
| L_free_src     (* line 80 *)
| L_free_dst     (* line 81 *)
| L_free_ctx     (* line 82 *)
| L_exit.

(** The locals of [thread_target]. [sws], [src_frame] and [dst_frame] say
    whether the worker holds a live context, source frame and destination
    frame; [err] is the local of line 44. *)
Record worker := Worker {
  pc : label;
  sws : bool;
  src_frame : bool;
  dst_frame : bool;
  err : Z
}.

Definition at_label (w : worker) (l : label) : worker :=
  Worker l (sws w) (src_frame w) (dst_frame w) (err w).

(** One operation of a worker. The result is the worker's new locals, the
    new values of the two atomics, and the events performed; a
    worker that has returned performs nothing. *)
Definition thread_target (lib : swscale) (tid : nat) (h : trace)
    (counter error : Z) (w : worker) : option (worker * Z * Z * list event) :=
  match pc w with
  | L_getContext =>
      let ok := getContext_ok lib tid h in
      Some (if ok then Worker L_alloc_src true (src_frame w) (dst_frame w) (err w)
            else at_label w L_fail,
            counter, error, [sws_getContext ok])
  | L_alloc_src =>
      let ok := frame_alloc_ok lib tid Src h in
      Some (if ok then Worker L_alloc_dst (sws w) true (dst_frame w) (err w)
            else at_label w L_fail,
            counter, error, [av_frame_alloc Src ok])
  | L_alloc_dst =>
      let ok := frame_alloc_ok lib tid Dst h in
      Some (if ok then Worker L_buffer_src (sws w) (src_frame w) true (err w)
            else at_label w L_fail,
            counter, error, [av_frame_alloc Dst ok])
  | L_buffer_src =>
      let r := get_buffer_ret lib tid Src h in
      Some (Worker (if r =? 0 then L_buffer_dst else L_fail)
                   (sws w) (src_frame w) (dst_frame w) r,
            counter, error, [av_frame_get_buffer Src r])
  | L_buffer_dst =>
      let r := get_buffer_ret lib tid Dst h in
      Some (Worker (if r =? 0 then L_claim else L_fail)
                   (sws w) (src_frame w) (dst_frame w) r,
            counter, error, [av_frame_get_buffer Dst r])
  | L_claim =>
      (* line 68: the counter is read and decremented at once, and the loop
         ends when the value read is <= 0; line 75 then sets err = 0 *)
      Some (if counter <=? 0
            then Worker L_fail (sws w) (src_frame w) (dst_frame w) 0
            else at_label w L_scale,
            to_int (counter - 1), error, [fetch_sub counter])
  | L_scale =>
      (* line 71: a negative result jumps to fail; err is left as it is *)
      let r := scale_ret lib tid h in
      Some (at_label w (if r <? 0 then L_fail else L_claim),
            counter, error, [sws_scale r])
  | L_fail =>
      (* lines 77 and 78: error is stored only when err is not zero *)
      if err w =? 0
      then Some (at_label w L_free_src, counter, error, [])
      else Some (at_label w L_free_src, counter, err w, [error_store (err w)])
  | L_free_src =>
      Some (Worker L_free_dst (sws w) false (dst_frame w) (err w),
            counter, error, [av_frame_free Src])
  | L_free_dst =>
      Some (Worker L_free_ctx (sws w) (src_frame w) false (err w),
            counter, error, [av_frame_free Dst])
  | L_free_ctx =>
      Some (Worker L_exit false (src_frame w) (dst_frame w) (err w),
            counter, error, [sws_freeContext])
  | L_exit => None
  end.

(** ** One run: the body of the loop of [execute] *)

(** [counter] and [error] are the atomics of lines 97 and 98,
    [thread_pool] the workers of line 96 with their locals. *)
Record run := Run {
  counter : Z;
  error : Z;
  thread_pool : list worker;
  history : trace
}.

(** A thread as [emplace_back] starts it: at the top of [thread_target],
    holding nothing, with [err = 1]. *)
Definition spawned : worker := Worker L_getContext false false false 1.

(** Lines 96 to 105 when every thread is started; a thread that cannot be
    started is the matter of [sweep_on] below. A thread that was not
    started yet and one that was not scheduled yet behave alike, so all
    [n] workers are present from the start. *)
Definition start (times n : Z) : run :=
  Run (to_int (to_unsigned (times * n))) 0 (replicate (Z.to_nat n) spawned) [].

(** Thread [tid] performs its next operation. *)
Definition step (lib : swscale) (tid : nat) (s : run) : option run :=
  match thread_pool s !! tid with
  | None => None
  | Some w =>
      match thread_target lib tid (history s) (counter s) (error s) w with
      | None => None
      | Some (w', c, e, evs) =>
          Some (Run c e (<[tid := w']> (thread_pool s))
                    (map (pair tid) evs ++ history s))
      end
  end.

(** A schedule names the thread that moves next; naming a thread that does
    not exist or has returned leaves the run as it is. *)
Fixpoint exec (lib : swscale) (sched : list nat) (s : run) : run :=
  match sched with
  | [] => s
  | tid :: rest =>
      exec lib rest (match step lib tid s with Some s' => s' | None => s end)
  end.

Definition exited (w : worker) : bool :=
  match pc w with L_exit => true | _ => false end.

(** All threads have returned: every [th.join()] of line 108 returns. *)
Definition joined (s : run) : bool := forallb exited (thread_pool s).

(** ** Observations on a trace *)

Fixpoint occurrences (p : event -> bool) (h : trace) : Z :=
  match h with
  | [] => 0
  | (_, e) :: h' => (if p e then 1 else 0) + occurrences p h'
  end.

Fixpoint events_of (tid : nat) (h : trace) : list event :=
  match h with
  | [] => []
  | (t, e) :: h' => if Nat.eqb t tid then e :: events_of tid h' else events_of tid h'
  end.

Definition is_scale (e : event) : bool :=
  match e with sws_scale _ => true | _ => false end.

Definition is_fetch (e : event) : bool :=
  match e with fetch_sub _ => true | _ => false end.

(** A decrement that claimed a work unit: the value read was positive. *)
Definition is_claim (e : event) : bool :=
  match e with fetch_sub pre => 0 <? pre | _ => false end.

(** A decrement that ended the loop. *)
Definition is_break (e : event) : bool :=
  match e with fetch_sub pre => pre <=? 0 | _ => false end.

(** Construction of the context, the frames or their buffers failed. *)
Definition is_construction_failure (e : event) : bool :=
  match e with
  | sws_getContext ok => negb ok
  | av_frame_alloc _ ok => negb ok
  | av_frame_get_buffer _ r => negb (r =? 0)
  | _ => false
  end.

Definition is_store (e : event) : bool :=
  match e with error_store _ => true | _ => false end.

(** Any call into the library that failed. *)
Definition is_failure (e : event) : bool :=
  match e with
  | sws_getContext ok => negb ok
  | av_frame_alloc _ ok => negb ok
  | av_frame_get_buffer _ r => negb (r =? 0)
  | sws_scale r => r <? 0
  | _ => false
  end.

(** Conversion calls made so far, by all workers. *)
Definition conversions (s : run) : Z := occurrences is_scale (history s).

(** Work units claimed so far, newest first: the claiming thread and the
    value it read, for the decrements that found the counter positive. *)
Fixpoint claimed_units (h : trace) : list (nat * Z) :=
  match h with
  | [] => []
  | (t, fetch_sub pre) :: h' =>
      if 0 <? pre then (t, pre) :: claimed_units h' else claimed_units h'
  | _ :: h' => claimed_units h'
  end.

(** ** The sweep: [execute] and [main] *)

(** What one run meets: the library's behaviour, the order in which the
    scheduler lets the threads move, and the reading of the timer. *)
Record world := World {
  lib : swscale;
  schedule : list nat;
  elapsed : Q
}.

Inductive run_outcome :=
| run_ok            (* error is zero after the joins *)
| run_failed (e : Z) (* line 112: error is set *)
| run_blocked.      (* a join never returns *)

(** Lines 96 to 115 for [n] threads. *)
Definition run_coordinator (w : world) (times n : Z) : run_outcome :=
  let s := exec (lib w) (schedule w) (start times n) in
  if joined s then (if error s =? 0 then run_ok else run_failed (error s))
  else run_blocked.

Record Arguments := {
  pixfmt_in : Z;
  pixfmt_out : Z;
  width_in : Z;
  height_in : Z;
  width_out : Z;
  height_out : Z;
  times : Z;
  threads : Z
}.

(** The value printed on the [fps] line: the operands of the division of
    line 120. *)
Inductive throughput :=
| quotient (iterations : Z) (seconds : Q).

Inductive out_line :=
| header (a : Arguments)
| blank
| threads_line (n : Z)
| iterations_line (k : Z)
| fps_line (t : throughput).

(** The line of line 113, with the value read from the error flag. *)
Inductive err_line :=
| failure (e : Z).

Inductive exit_status :=
| returned          (* the loop ended *)
| thrown            (* line 114 *)
| blocked           (* a run never joined *)
| pending.          (* the loop is still going when the fuel ends *)

Record sweep_result := Sweep {
  stdout : list out_line;
  stderr : list err_line;
  runs : list Z;  (* the thread counts for which threads were started *)
  status : exit_status
}.

(** Lines 117 to 120. *)
Definition report_block (times n : Z) (t : Q) : list out_line :=
  [ blank;
    threads_line n;
    iterations_line (to_unsigned (times * n));
    fps_line (quotient (to_unsigned (times * n)) t) ].

(** The loop of line 95, from [n] on, when every thread of every run is
    started. [env n] is the world the run with [n] threads meets. *)
Fixpoint sweep (env : Z -> world) (times thread_max : Z) (fuel : nat) (n : Z)
    : sweep_result :=
  if n <=? thread_max then
    match fuel with
    | O => Sweep [] [] [] pending
    | S fuel' =>
        match run_coordinator (env n) times n with
        | run_blocked => Sweep [] [] [n] blocked
        | run_failed e => Sweep [] [failure e] [n] thrown
        | run_ok =>
            let r := sweep env times thread_max fuel' (to_unsigned (n + 1)) in
            Sweep (report_block times n (elapsed (env n)) ++ stdout r)
                  (stderr r) (n :: runs r) (status r)
        end
    end
  else Sweep [] [] [] returned.

(** [execute]; [hw] is [std::thread::hardware_concurrency()]. *)
Definition execute (env : Z -> world) (a : Arguments) (hw : Z) (fuel : nat)
    : sweep_result :=
  let thread_min := if threads a =? 0 then 1 else threads a in
  let thread_max := if threads a =? 0 then hw else threads a in
  let r := sweep env (times a) thread_max fuel thread_min in
  Sweep (header a :: stdout r) (stderr r) (runs r) (status r).

(** [main] after [argparse_parse] returned 0 and left [a]: the exit code,
    when the process ends. *)
Definition main (env : Z -> world) (a : Arguments) (hw : Z) (fuel : nat)
    : option Z :=
  match status (execute env a hw fuel) with
  | returned => Some 0
  | thrown => Some 1
  | blocked | pending => None
  end.

(** ** Vocabulary of the proofs *)

(** The sum of [f] over the workers of a pool. *)
Fixpoint tally (f : worker -> Z) (l : list worker) : Z :=
  match l with
  | [] => 0
  | w :: l' => f w + tally f l'
  end.

(** A worker that has not left the claim loop yet. *)
Definition in_flight (w : worker) : Z :=
  match pc w with
  | L_getContext | L_alloc_src | L_alloc_dst | L_buffer_src | L_buffer_dst
  | L_claim | L_scale => 1
  | _ => 0
  end.

(** A worker that holds a claimed unit and has not converted it yet. *)
Definition at_scale (w : worker) : Z :=
  match pc w with L_scale => 1 | _ => 0 end.

(** The bookkeeping that every run keeps, whatever the library answers and
    whatever the schedule: the counter is its initial value [c0] minus the
    decrements made (modulo 2^32); every claimed unit was converted or is
    held by a worker about to convert it; and every worker is either still
    in flight or left through exactly one break or one failure. *)
Record accounts (c0 : Z) (s : run) : Prop := {
  acc_counter : counter s = to_int (c0 - occurrences is_fetch (history s));
  acc_scale : occurrences is_claim (history s)
              = occurrences is_scale (history s) + tally at_scale (thread_pool s);
  acc_flight : tally in_flight (thread_pool s)
               + occurrences is_break (history s)
               + occurrences is_failure (history s)
               = Z.of_nat (length (thread_pool s))
}.

(** With [n] workers and initial value [c0], no worker reads the counter
    after it wrapped below [INT_MIN]: each worker makes one decrement that
    finds the counter non-positive, and only the last of them may wrap. *)
Definition unobserved_wrap (c0 n : Z) : Prop := n <= Z.min c0 0 + 2147483649.

(** No decrement wraps at all. *)
Definition wrap_free (c0 n : Z) : Prop := n <= Z.min c0 0 + 2147483648.

(** Claims never exceed the initial value, and once a worker has found the
    counter exhausted all of it has been claimed. *)
Definition claims_bounded (c0 : Z) (s : run) : Prop :=
  occurrences is_claim (history s) <= Z.max c0 0 /\
  (1 <= occurrences is_break (history s) -> c0 <= occurrences is_claim (history s)).

(** Operations a worker still has to perform, the claim loop counted
    apart: a worker in the loop outweighs any value of the counter. *)
Definition rank (w : worker) : Z :=
  match pc w with
  | L_exit => 0
  | L_free_ctx => 1
  | L_free_dst => 2
  | L_free_src => 3
  | L_fail => 4
  | L_claim => 8589934592
  | L_scale => 8589934593
  | L_buffer_dst => 8589934594
  | L_buffer_src => 8589934595
  | L_alloc_dst => 8589934596
  | L_alloc_src => 8589934597
  | L_getContext => 8589934598
  end.

(** What decreases with every operation of a run. *)
Definition measure (s : run) : Z :=
  tally rank (thread_pool s) + 2 * Z.max 0 (counter s).

(** A decrement of the counter or a conversion call. *)
Definition is_work (e : event) : bool :=
  match e with fetch_sub _ | sws_scale _ => true | _ => false end.

(** The last three operations of a worker were the releases of lines 80
    to 82. *)
Definition released (evs : list event) : Prop :=
  exists rest, evs = sws_freeContext :: av_frame_free Dst :: av_frame_free Src :: rest.

(** A worker whose construction failed did no work, and has stored its
    error into the flag, which is set. *)
Definition reports_failure (e : Z) (evs : list event) : Prop :=
  existsb is_construction_failure evs = true ->
  e <> 0 /\ existsb is_work evs = false /\ existsb is_store evs = true.

(** What is known of a worker at each program point, from the value [e] of
    the error flag and the operations [evs] the worker has performed. *)
Definition thread_inv (e : Z) (evs : list event) (w : worker) : Prop :=
  match pc w with
  | L_getContext | L_alloc_src | L_alloc_dst =>
      err w <> 0 /\ existsb is_construction_failure evs = false
      /\ existsb is_work evs = false
  | L_buffer_src | L_buffer_dst =>
      existsb is_construction_failure evs = false /\ existsb is_work evs = false
  | L_claim | L_scale =>
      err w = 0 /\ existsb is_construction_failure evs = false
  | L_fail =>
      if existsb is_construction_failure evs
      then err w <> 0 /\ existsb is_work evs = false
      else err w = 0
  | L_free_src => reports_failure e evs
  | L_free_dst =>
      reports_failure e evs /\ src_frame w = false
      /\ exists rest, evs = av_frame_free Src :: rest
  | L_free_ctx =>
      reports_failure e evs /\ src_frame w = false /\ dst_frame w = false
      /\ exists rest, evs = av_frame_free Dst :: av_frame_free Src :: rest
  | L_exit =>
      reports_failure e evs
      /\ sws w = false /\ src_frame w = false /\ dst_frame w = false
      /\ released evs
  end.

(** Every worker is as [thread_inv] says, and the error flag is clear
    unless some construction failed. *)
Definition sound (s : run) : Prop :=
  (forall tid w, thread_pool s !! tid = Some w ->
                 thread_inv (error s) (events_of tid (history s)) w) /\
  (occurrences is_construction_failure (history s) = 0 -> error s = 0).

(** Every unit claimed so far lies above the counter, and no unit was
    claimed twice. *)
Definition units_fresh (s : run) : Prop :=
  NoDup (snd <$> claimed_units (history s)) /\
  forall u, u ∈ snd <$> claimed_units (history s) -> counter s < u.

(** ** Sample libraries, schedules and arguments *)

(** A library whose every call succeeds. *)
Definition always_ok : swscale :=
  Build_swscale (fun _ _ => true) (fun _ _ _ => true) (fun _ _ _ => 0) (fun _ _ => 0).

(** A library whose conversions fail with status -1. *)
Definition scale_fails : swscale :=
  Build_swscale (fun _ _ => true) (fun _ _ _ => true) (fun _ _ _ => 0) (fun _ _ => -1).

(** A library that cannot build a context. *)
Definition no_context : swscale :=
  Build_swscale (fun _ _ => false) (fun _ _ _ => true) (fun _ _ _ => 0) (fun _ _ => 0).

(** Thread 0 runs for [k] operations, then thread 1 for [k] operations. *)
Definition two_in_turn (k : nat) : list nat := replicate k 0%nat ++ replicate k 1%nat.

(** The policy of the specification (section 4.2), in its words: when the
    elapsed time is zero or negative the throughput is reported as
    undefined, and no division takes place. *)
Inductive spec_throughput :=
| measured (t : throughput)
| undefined_throughput.

(** The throughput that policy reports. *)
Definition spec_guarded_fps (iterations : Z) (seconds : Q) : spec_throughput :=
  if Qle_bool seconds 0 then undefined_throughput
  else measured (quotient iterations seconds).

(** The default conversion of [main], with [k] iterations per thread and
    the thread option [t]. *)
Definition sample_args (k t : Z) : Arguments :=
  {| pixfmt_in := 0; pixfmt_out := 0;
     width_in := 1280; height_in := 720; width_out := 1920; height_out := 1080;
     times := k; threads := t |}.

(** The report blocks of the thread counts [ns], in that order. *)
Fixpoint blocks (env : Z -> world) (times : Z) (ns : list Z) : list out_line :=
  match ns with
  | [] => []
  | i :: rest => report_block times i (elapsed (env i)) ++ blocks env times rest
  end.

(** Two threads taking turns, twenty operations each. *)
Definition round_robin : list nat := concat (replicate 20 [0%nat; 1%nat]).

(** A world in which the run with two threads cannot build its contexts. *)
Definition fails_at_two (n : Z) : world :=
  World (if n =? 2 then no_context else always_ok) round_robin 1.

(** A library that cannot allocate the frames of thread 0. *)
Definition first_cannot_alloc : swscale :=
  Build_swscale (fun _ _ => true) (fun t f _ => negb (Nat.eqb t 0))
                (fun _ _ _ => 0) (fun _ _ => 0).

(** ** The life of a worker *)

(** The five construction calls of a worker that reached the claim loop,
    newest first. *)
Definition constructed : list event :=
  [av_frame_get_buffer Dst 0; av_frame_get_buffer Src 0;
   av_frame_alloc Dst true; av_frame_alloc Src true; sws_getContext true].

(** Completed turns of the claim loop, newest first: a decrement that read
    a positive value, then a conversion that did not fail. *)
Fixpoint rounds (l : list event) : bool :=
  match l with
  | [] => true
  | sws_scale r :: fetch_sub u :: l' => (0 <=? r) && (0 <? u) && rounds l'
  | _ => false
  end.

(** The calls of a worker whose construction failed, with the value left in
    [err]: 1 from line 44 when the context or a frame could not be made,
    the result of [av_frame_get_buffer] otherwise. *)
Definition failed_construction (e : Z) (evs : list event) : Prop :=
  (e = 1 /\ evs = [sws_getContext false]) \/
  (e = 1 /\ evs = [av_frame_alloc Src false; sws_getContext true]) \/
  (e = 1 /\ evs = [av_frame_alloc Dst false; av_frame_alloc Src true;
                   sws_getContext true]) \/
  (e <> 0 /\ evs = [av_frame_get_buffer Src e; av_frame_alloc Dst true;
                    av_frame_alloc Src true; sws_getContext true]) \/
  (e <> 0 /\ evs = [av_frame_get_buffer Dst e; av_frame_get_buffer Src 0;
                    av_frame_alloc Dst true; av_frame_alloc Src true;
                    sws_getContext true]).

(** The calls of a worker that left the claim loop: through the break of
    line 69, or through the jump of line 72 after a conversion failed. *)
Definition left_loop (evs : list event) : Prop :=
  (exists u loop, u <= 0 /\ rounds loop = true /\
                  evs = fetch_sub u :: loop ++ constructed) \/
  (exists r u loop, r < 0 /\ 0 < u /\ rounds loop = true /\
                    evs = sws_scale r :: fetch_sub u :: loop ++ constructed).

(** What a worker did before it reached the label [fail], with the value of
    [err] it arrives with. *)
Definition lifetime (e : Z) (evs : list event) : Prop :=
  (e <> 0 /\ failed_construction e evs) \/ (e = 0 /\ left_loop evs).

(** The store of line 78, made only when [err] is not zero. *)
Definition stored (e : Z) : list event :=
  if e =? 0 then [] else [error_store e].

(** The trace of a worker at each program point, and the resources it
    holds up to the claim loop. *)
Definition lifecycle (evs : list event) (w : worker) : Prop :=
  match pc w with
  | L_getContext =>
      evs = [] /\ err w = 1
      /\ sws w = false /\ src_frame w = false /\ dst_frame w = false
  | L_alloc_src =>
      evs = [sws_getContext true] /\ err w = 1
      /\ sws w = true /\ src_frame w = false /\ dst_frame w = false
  | L_alloc_dst =>
      evs = [av_frame_alloc Src true; sws_getContext true] /\ err w = 1
      /\ sws w = true /\ src_frame w = true /\ dst_frame w = false
  | L_buffer_src =>
      evs = [av_frame_alloc Dst true; av_frame_alloc Src true; sws_getContext true]
      /\ err w = 1
      /\ sws w = true /\ src_frame w = true /\ dst_frame w = true
  | L_buffer_dst =>
      evs = [av_frame_get_buffer Src 0; av_frame_alloc Dst true;
             av_frame_alloc Src true; sws_getContext true]
      /\ err w = 0
      /\ sws w = true /\ src_frame w = true /\ dst_frame w = true
  | L_claim =>
      (exists loop, rounds loop = true /\ evs = loop ++ constructed)
      /\ err w = 0
      /\ sws w = true /\ src_frame w = true /\ dst_frame w = true
  | L_scale =>
      (exists u loop, 0 < u /\ rounds loop = true /\
                      evs = fetch_sub u :: loop ++ constructed)
      /\ err w = 0
      /\ sws w = true /\ src_frame w = true /\ dst_frame w = true
  | L_fail => lifetime (err w) evs
  | L_free_src =>
      exists b, lifetime (err w) b /\ evs = stored (err w) ++ b
  | L_free_dst =>
      exists b, lifetime (err w) b /\ evs = av_frame_free Src :: stored (err w) ++ b
  | L_free_ctx =>
      exists b, lifetime (err w) b /\
                evs = av_frame_free Dst :: av_frame_free Src :: stored (err w) ++ b
  | L_exit =>
      exists b, lifetime (err w) b /\
                evs = sws_freeContext :: av_frame_free Dst :: av_frame_free Src
                      :: stored (err w) ++ b
  end.

(** An operation of a completed turn of the claim loop. *)
Definition loop_event (e : event) : bool :=
  match e with
  | fetch_sub u => 0 <? u
  | sws_scale r => 0 <=? r
  | _ => false
  end.

(** An operation that ends the claim loop: a decrement that read no
    positive value, or a conversion that failed. *)
Definition ends_loop (e : event) : bool :=
  match e with
  | fetch_sub u => u <=? 0
  | sws_scale r => r <? 0
  | _ => false
  end.

(** A call that gives a resource back. *)
Definition is_release (e : event) : bool :=
  match e with av_frame_free _ | sws_freeContext => true | _ => false end.

(** A worker that is past the store of line 78. *)
Definition past_fail (w : worker) : bool :=
  match pc w with
  | L_free_src | L_free_dst | L_free_ctx | L_exit => true
  | _ => false
  end.

(** A context that was built. *)
Definition is_context (e : event) : bool :=
  match e with sws_getContext ok => ok | _ => false end.

(** ** Counting calls *)

(** The library calls and atomic accesses a worker has ahead of it, at
    most, once the counter is exhausted: the test of line 77 is neither,
    and the store of line 78 happens only when [err] is not zero. *)
Definition remaining (w : worker) : Z :=
  match pc w with
  | L_getContext => 9
  | L_alloc_src => 8
  | L_alloc_dst => 7
  | L_buffer_src => 6
  | L_buffer_dst => 5
  | L_claim => 4
  | L_scale => 5
  | L_fail => if err w =? 0 then 3 else 4
  | L_free_src => 3
  | L_free_dst => 2
  | L_free_ctx => 1
  | L_exit => 0
  end.

(** The calls and accesses a run has ahead of it, at most: those of its
    workers and two for each unit still unclaimed. *)
Definition budget (c0 : Z) (s : run) : Z :=
  tally remaining (thread_pool s)
  + 2 * (Z.max c0 0 - occurrences is_claim (history s)).

(** The calls and accesses made so far, by all workers. *)
Definition calls (s : run) : Z := Z.of_nat (length (history s)).

(** ** The value of the error flag *)


(** ** Starting the threads *)

(** Line 103: [emplace_back] constructs a [std::thread], and that
    constructor throws [std::system_error] when the thread cannot be
    started. [p n nn] says whether the platform starts thread [nn] of the
    run with [n] threads. *)
Definition platform := Z -> Z -> bool.

(** The loop of lines 102 to 105 from thread [nn] on, with [k] threads
    still to start: the thread whose start throws, if there is one. *)
Fixpoint first_refused (can_start : Z -> bool) (k : nat) (nn : Z) : option Z :=
  match k with
  | O => None
  | S k' => if can_start nn then first_refused can_start k' (nn + 1) else Some nn
  end.

Definition emplace_all (p : platform) (n : Z) : option Z :=
  first_refused (p n) (Z.to_nat n) 0.

(** How [execute] is left. The exception of line 103 unwinds the loop body
    and destroys [thread_pool]: when thread 0 was refused the pool is
    empty and the exception leaves [execute]; when a later thread was
    refused the pool holds joinable threads, and the destructor of
    [std::thread] calls [std::terminate]. *)
Inductive departure :=
| as_status (st : exit_status)   (* every thread of the last run was started *)
| system_error (n : Z)           (* thread 0 of the run with [n] threads was refused *)
| terminate (n nn : Z).          (* thread [nn] > 0 of that run was refused *)

(** The state in which [execute] finds a run whose threads were all
    started: after the joins, or where the schedule left it. *)
Definition run_state (w : world) (times n : Z) : run :=
  exec (lib w) (schedule w) (start times n).

Record outcome := Outcome {
  cout : list out_line;   (* written to standard output; [std::terminate]
                             ends the process without flushing it *)
  cerr : list err_line;
  made : list (Z * run);  (* the runs whose threads were all started *)
  leaving : departure
}.

(** The loop of line 95, from [n] on, on a platform that may refuse to
    start a thread. *)
Fixpoint sweep_on (p : platform) (env : Z -> world) (times thread_max : Z)
    (fuel : nat) (n : Z) : outcome :=
  if n <=? thread_max then
    match fuel with
    | O => Outcome [] [] [] (as_status pending)
    | S fuel' =>
        match emplace_all p n with
        | Some nn =>
            Outcome [] [] [] (if nn =? 0 then system_error n else terminate n nn)
        | None =>
            let s := run_state (env n) times n in
            match run_coordinator (env n) times n with
            | run_blocked => Outcome [] [] [(n, s)] (as_status blocked)
            | run_failed e => Outcome [] [failure e] [(n, s)] (as_status thrown)
            | run_ok =>
                let r := sweep_on p env times thread_max fuel' (to_unsigned (n + 1)) in
                Outcome (report_block times n (elapsed (env n)) ++ cout r)
                        (cerr r) ((n, s) :: made r) (leaving r)
            end
        end
    end
  else Outcome [] [] [] (as_status returned).

(** [execute] on such a platform. *)
Definition execute_on (p : platform) (env : Z -> world) (a : Arguments) (hw : Z)
    (fuel : nat) : outcome :=
  let thread_min := if threads a =? 0 then 1 else threads a in
  let thread_max := if threads a =? 0 then hw else threads a in
  let r := sweep_on p env (times a) thread_max fuel thread_min in
  Outcome (header a :: cout r) (cerr r) (made r) (leaving r).

(** The exception caught on line 180: [std::system_error] derives from
    [std::runtime_error]. *)
Inductive exception :=
| thread_target_failed   (* line 114 *)
| thread_start_failed.   (* line 103 *)

(** The lines on standard error: those of [execute] and the one of line
    181. *)
Inductive cerr_line :=
| from_execute (l : err_line)
| runtime_error (e : exception).

Inductive process_end :=
| exit (code : Z)   (* [main] returned *)
| aborted           (* [std::terminate] *)
| unfinished.       (* a run never joined, or the fuel ended *)

(** [main] on such a platform, after [argparse_parse] returned 0 and left
    [a]: what was written to standard error and how the process ended. *)
Definition main_on (p : platform) (env : Z -> world) (a : Arguments) (hw : Z)
    (fuel : nat) : list cerr_line * process_end :=
  let r := execute_on p env a hw fuel in
  let lines := map from_execute (cerr r) in
  match leaving r with
  | as_status returned => (lines, exit 0)
  | as_status thrown => (lines ++ [runtime_error thread_target_failed], exit 1)
  | system_error _ => (lines ++ [runtime_error thread_start_failed], exit 1)
  | terminate _ _ => (lines, aborted)
  | as_status blocked | as_status pending => (lines, unfinished)
  end.

(** The thread counts whose run ended with a report block: the runs made,
    less the last one when it failed or never joined. *)
Definition reported (r : outcome) : list Z :=
  match leaving r with
  | as_status thrown | as_status blocked => removelast (map fst (made r))
  | _ => map fst (made r)
  end.

(** The runs of the thread counts [ns] as [execute] finds them. *)
Definition states (env : Z -> world) (times : Z) (ns : list Z) : list (Z * run) :=
  map (fun i => (i, run_state (env i) times i)) ns.

(** A platform with room for [k] threads. *)
Definition room_for (k : Z) : platform := fun _ nn => nn <? k.

(** A platform that starts every thread. *)
Definition roomy : platform := fun _ _ => true.

(** * Proofs *)

(** ** Machine integers *)

Lemma to_int_range z : int_range (to_int z).
Proof.
  unfold int_range, to_int, INT_MIN, INT_MAX.
  pose proof (Z.mod_pos_bound (z + 2147483648) 4294967296). lia.
Qed.

Lemma to_int_id z : int_range z -> to_int z = z.
Proof.
  unfold int_range, to_int, INT_MIN, INT_MAX. intros Hz.
  rewrite Z.mod_small by lia. lia.
Qed.

Lemma to_unsigned_id z : 0 <= z <= UINT_MAX -> to_unsigned z = z.
Proof. unfold to_unsigned, UINT_MAX. intros Hz. apply Z.mod_small. lia. Qed.

Lemma to_unsigned_range z : 0 <= to_unsigned z <= UINT_MAX.
Proof.
  unfold to_unsigned, UINT_MAX.
  pose proof (Z.mod_pos_bound z 4294967296). lia.
Qed.

(** ** Sums over the thread pool *)

Lemma tally_insert f (l : list worker) i w w' :
  l !! i = Some w -> tally f (<[i := w']> l) = tally f l - f w + f w'.
Proof.
  revert i. induction l as [|x l IH]; intros [|i] Hi; simpl in *; try discriminate.
  - inversion Hi. lia.
  - rewrite (IH i Hi). lia.
Qed.

Lemma tally_nonneg f (l : list worker) :
  (forall w, 0 <= f w) -> 0 <= tally f l.
Proof. intros Hf. induction l as [|x l IH]; simpl; [lia | specialize (Hf x); lia]. Qed.

Lemma tally_lookup_le f (l : list worker) i w :
  (forall w, 0 <= f w) -> l !! i = Some w -> f w <= tally f l.
Proof.
  intros Hf. revert i. induction l as [|x l IH]; intros [|i] Hi; simpl in *; try discriminate.
  - inversion Hi; subst. pose proof (tally_nonneg f l Hf). lia.
  - specialize (IH i Hi). specialize (Hf x). lia.
Qed.

Lemma tally_replicate f n w : tally f (replicate n w) = Z.of_nat n * f w.
Proof. induction n as [|n IH]; simpl replicate; simpl tally; [lia | rewrite IH; lia]. Qed.

Lemma tally_exited f (l : list worker) :
  (forall w, exited w = true -> f w = 0) -> forallb exited l = true -> tally f l = 0.
Proof.
  intros Hf. induction l as [|x l IH]; simpl; [reflexivity|].
  intros H. apply andb_true_iff in H as [Hx Hl]. rewrite (Hf x Hx), (IH Hl). reflexivity.
Qed.

Lemma in_flight_nonneg w : 0 <= in_flight w.
Proof. unfold in_flight. destruct (pc w); lia. Qed.

Lemma at_scale_nonneg w : 0 <= at_scale w.
Proof. unfold at_scale. destruct (pc w); lia. Qed.

(** ** Steps *)

Lemma step_inv lib tid s s' :
  step lib tid s = Some s' ->
  exists w w' c e evs,
    thread_pool s !! tid = Some w /\
    thread_target lib tid (history s) (counter s) (error s) w = Some (w', c, e, evs) /\
    counter s' = c /\ error s' = e /\
    thread_pool s' = <[tid := w']> (thread_pool s) /\
    history s' = map (pair tid) evs ++ history s.
Proof.
  unfold step. intros H.
  destruct (thread_pool s !! tid) as [w|] eqn:Hw; [|discriminate].
  destruct (thread_target lib tid (history s) (counter s) (error s) w)
    as [[[[w' c] e] evs]|] eqn:Ht; [|discriminate].
  inversion H; subst; simpl. exists w, w', c, e, evs. auto 10.
Qed.

(** Case analysis on the operation a worker performed: one goal per branch
    of [thread_target]. *)
Ltac thread_cases Ht :=
  match type of Ht with
  | thread_target _ _ _ _ _ ?w = _ =>
      let p := fresh "p" in
      destruct w as [p ? ? ? ?]; destruct p; unfold thread_target in Ht;
      cbn [pc sws src_frame dst_frame err at_label] in Ht;
      repeat match type of Ht with
             | context [if ?b then _ else _] => destruct b eqn:?
             end;
      first [ discriminate Ht | injection Ht as <- <- <- <- ]
  end.

(** Boolean comparisons turned into the facts [lia] reads. *)
Ltac zbool :=
  repeat match goal with
         | H : (_ <=? _) = true |- _ => apply Z.leb_le in H
         | H : (_ <=? _) = false |- _ => apply Z.leb_gt in H
         | H : (_ <? _) = true |- _ => apply Z.ltb_lt in H
         | H : (_ <? _) = false |- _ => apply Z.ltb_ge in H
         | H : (_ =? _) = true |- _ => apply Z.eqb_eq in H
         | H : (_ =? _) = false |- _ => apply Z.eqb_neq in H
         | |- context [if ?b then _ else _] => destruct b eqn:?
         end.

(** Case analysis on a step of the run: the worker that moved, what it
    did, and the sums and traces rewritten accordingly. *)
Ltac step_cases H :=
  let w := fresh "w" in let w' := fresh "w'" in
  let c := fresh "c" in let e := fresh "e" in let evs := fresh "evs" in
  let Hw := fresh "Hw" in let Ht := fresh "Ht" in
  let Hc := fresh "Hc" in let He := fresh "He" in
  let Hp := fresh "Hp" in let Hh := fresh "Hh" in
  apply step_inv in H as (w & w' & c & e & evs & Hw & Ht & Hc & He & Hp & Hh);
  thread_cases Ht;
  rewrite ?Hp, ?Hh, ?Hc, ?He;
  rewrite ?(tally_insert _ _ _ _ _ Hw), ?length_insert;
  cbn [map app occurrences events_of claimed_units
       is_scale is_fetch is_claim is_break is_failure is_construction_failure
       is_store
       in_flight at_scale pc sws src_frame dst_frame err at_label];
  repeat match goal with
         | Hb : ?b = true |- context [?b] => rewrite Hb
         | Hb : ?b = false |- context [?b] => rewrite Hb
         end;
  cbn [negb orb andb].

Section Run.

(** The library is fixed for the whole run. *)
Variable lib : swscale.

(** What holds at the start and is kept by every step holds after every
    schedule. *)
Lemma exec_invariant (P : run -> Prop) :
  (forall tid s s', P s -> step lib tid s = Some s' -> P s') ->
  forall sched s, P s -> P (exec lib sched s).
Proof.
  intros Hstep sched. induction sched as [|tid rest IH]; intros s Hs; simpl; [exact Hs|].
  apply IH. destruct (step lib tid s) as [s'|] eqn:E; [eapply Hstep; eauto | exact Hs].
Qed.

Lemma step_length tid s s' :
  step lib tid s = Some s' -> length (thread_pool s') = length (thread_pool s).
Proof.
  intros H. apply step_inv in H as (w & w' & c & e & evs & _ & _ & _ & _ & Hp & _).
  rewrite Hp. apply length_insert.
Qed.

Lemma exec_length sched s :
  length (thread_pool (exec lib sched s)) = length (thread_pool s).
Proof.
  apply (exec_invariant (fun s' => length (thread_pool s') = length (thread_pool s)));
    [|reflexivity].
  intros tid s1 s2 H1 H2. rewrite (step_length _ _ _ H2). exact H1.
Qed.

Lemma start_length times n : length (thread_pool (start times n)) = Z.to_nat n.
Proof. simpl. apply length_replicate. Qed.

(** ** Accounting: what the counter and the trace say about each other *)

Lemma to_int_pred z : to_int (to_int z - 1) = to_int (z - 1).
Proof.
  unfold to_int.
  replace ((z + 2147483648) mod 4294967296 - 2147483648 - 1 + 2147483648)
    with ((z + 2147483648) mod 4294967296 - 1) by lia.
  rewrite Zminus_mod_idemp_l. f_equal. f_equal. lia.
Qed.

Lemma occurrences_fetch h :
  occurrences is_fetch h = occurrences is_claim h + occurrences is_break h.
Proof.
  induction h as [|[t e] h IH]; simpl; [reflexivity|].
  destruct e; simpl; try lia.
  destruct (0 <? pre) eqn:E1, (pre <=? 0) eqn:E2; lia.
Qed.

Lemma occurrences_nonneg p h : 0 <= occurrences p h.
Proof. induction h as [|[t e] h IH]; simpl; [lia | destruct (p e); lia]. Qed.

Lemma accounts_start times n :
  0 <= n -> accounts (to_int (to_unsigned (times * n))) (start times n).
Proof.
  intros Hn. unfold start.
  split; cbn [counter history thread_pool occurrences]; rewrite ?tally_replicate.
  - rewrite Z.sub_0_r. symmetry. apply to_int_id, to_int_range.
  - change (at_scale spawned) with 0. lia.
  - rewrite length_replicate. change (in_flight spawned) with 1. lia.
Qed.

Lemma accounts_step c0 tid s s' :
  accounts c0 s -> step lib tid s = Some s' -> accounts c0 s'.
Proof.
  intros [H1 H2 H3] H. split.
  - step_cases H; try (rewrite H1; f_equal; lia).
    all: rewrite H1, to_int_pred; f_equal; lia.
  - step_cases H; zbool; lia.
  - step_cases H; zbool; lia.
Qed.

(** ** Runs in which the counter does not wrap *)

(** A worker still in flight reads the true value of the counter. *)
Lemma in_flight_reads c0 s tid w :
  int_range c0 ->
  unobserved_wrap c0 (Z.of_nat (length (thread_pool s))) ->
  accounts c0 s -> claims_bounded c0 s ->
  thread_pool s !! tid = Some w -> in_flight w = 1 ->
  counter s = c0 - occurrences is_claim (history s) - occurrences is_break (history s).
Proof.
  unfold int_range, unobserved_wrap, INT_MIN, INT_MAX.
  intros Hc0 Hn [H1 _ H3] [Hb _] Hw Hf.
  pose proof (tally_lookup_le in_flight _ _ _ in_flight_nonneg Hw).
  pose proof (occurrences_nonneg is_claim (history s)).
  pose proof (occurrences_nonneg is_break (history s)).
  pose proof (occurrences_nonneg is_failure (history s)).
  rewrite H1, occurrences_fetch. rewrite to_int_id; [lia|].
  unfold int_range, INT_MIN, INT_MAX. lia.
Qed.

Lemma claims_bounded_start times n : claims_bounded (to_int (to_unsigned (times * n))) (start times n).
Proof. unfold claims_bounded. simpl. lia. Qed.

Lemma claims_bounded_step c0 tid s s' :
  int_range c0 ->
  unobserved_wrap c0 (Z.of_nat (length (thread_pool s))) ->
  accounts c0 s -> claims_bounded c0 s ->
  step lib tid s = Some s' -> claims_bounded c0 s'.
Proof.
  intros Hc0 Hn Ha Hb H.
  assert (Hread : forall w, thread_pool s !! tid = Some w -> in_flight w = 1 ->
            counter s = c0 - occurrences is_claim (history s)
                           - occurrences is_break (history s))
    by (intros; eapply in_flight_reads; eauto).
  destruct Hb as [Hb1 Hb2]. unfold claims_bounded.
  pose proof (occurrences_nonneg is_break (history s)).
  step_cases H; try (specialize (Hread _ Hw eq_refl)); zbool; lia.
Qed.

(** Both invariants together, for a run of [n] threads. *)
Lemma bounded_exec sched times n :
  0 <= n ->
  unobserved_wrap (to_int (to_unsigned (times * n))) n ->
  let s := exec lib sched (start times n) in
  accounts (to_int (to_unsigned (times * n))) s /\
  claims_bounded (to_int (to_unsigned (times * n))) s /\
  length (thread_pool s) = Z.to_nat n.
Proof.
  intros Hn Hw. cbv zeta.
  apply (exec_invariant (fun s =>
           accounts (to_int (to_unsigned (times * n))) s /\
           claims_bounded (to_int (to_unsigned (times * n))) s /\
           length (thread_pool s) = Z.to_nat n)).
  - intros tid s s' (Ha & Hb & Hl) H. split; [|split].
    + eapply accounts_step; eauto.
    + eapply claims_bounded_step; eauto using to_int_range.
      rewrite Hl, Z2Nat.id by lia. exact Hw.
    + rewrite (step_length _ _ _ H). exact Hl.
  - split; [|split].
    + apply accounts_start; exact Hn.
    + apply claims_bounded_start.
    + apply start_length.
Qed.

Lemma joined_tally f s :
  (forall w, exited w = true -> f w = 0) -> joined s = true -> tally f (thread_pool s) = 0.
Proof. intros Hf. apply tally_exited. exact Hf. Qed.

Lemma exited_not_in_flight w : exited w = true -> in_flight w = 0.
Proof. unfold exited, in_flight. destruct (pc w); congruence. Qed.

Lemma exited_not_at_scale w : exited w = true -> at_scale w = 0.
Proof. unfold exited, at_scale. destruct (pc w); congruence. Qed.

(** Conversions never outnumber claims, and match them once all threads
    have returned. *)
Lemma conversions_le_claims c0 s :
  accounts c0 s -> conversions s <= occurrences is_claim (history s).
Proof.
  intros [_ H2 _]. unfold conversions.
  pose proof (tally_nonneg at_scale (thread_pool s) at_scale_nonneg). lia.
Qed.

Lemma conversions_joined c0 s :
  accounts c0 s -> joined s = true -> conversions s = occurrences is_claim (history s).
Proof.
  intros [_ H2 _] Hj. unfold conversions.
  rewrite (joined_tally at_scale s exited_not_at_scale Hj) in H2. lia.
Qed.

(** When all threads have returned and no call failed, every thread left
    through a break. *)
Lemma breaks_joined c0 s :
  accounts c0 s -> joined s = true -> occurrences is_failure (history s) = 0 ->
  occurrences is_break (history s) = Z.of_nat (length (thread_pool s)).
Proof.
  intros [_ _ H3] Hj Hf.
  rewrite (joined_tally in_flight s exited_not_in_flight Hj) in H3. lia.
Qed.

(** ** Every run can be scheduled to its end *)

Lemma rank_nonneg w : 0 <= rank w.
Proof. unfold rank. destruct (pc w); lia. Qed.

Lemma measure_nonneg s : 0 <= measure s.
Proof.
  unfold measure. pose proof (tally_nonneg rank (thread_pool s) rank_nonneg). lia.
Qed.

Lemma counter_range_step tid s s' :
  int_range (counter s) -> step lib tid s = Some s' -> int_range (counter s').
Proof.
  intros Hr H. step_cases H; auto using to_int_range.
Qed.

Lemma measure_step tid s s' :
  int_range (counter s) -> step lib tid s = Some s' -> measure s' < measure s.
Proof.
  intros Hr H. unfold measure.
  assert (Hpred : 0 < counter s -> to_int (counter s - 1) = counter s - 1).
  { intros Hpos. apply to_int_id. revert Hr. unfold int_range, INT_MIN, INT_MAX. lia. }
  pose proof (to_int_range (counter s - 1)) as Hwrap.
  unfold int_range, INT_MIN, INT_MAX in Hr, Hwrap.
  step_cases H; cbn [rank pc at_label]; zbool; lia.
Qed.

Lemma thread_target_moves tid h c e w :
  exited w = false -> exists r, thread_target lib tid h c e w = Some r.
Proof.
  unfold exited, thread_target. destruct (pc w); intros Hx; try discriminate; eauto.
  destruct (err w =? 0); eauto.
Qed.

Lemma not_all_exited (l : list worker) :
  forallb exited l = false -> exists i w, l !! i = Some w /\ exited w = false.
Proof.
  induction l as [|x l IH]; simpl; intros Hj; [discriminate|].
  destruct (exited x) eqn:Ex.
  - destruct (IH Hj) as (i & w & Hi & Hw). exists (S i), w. auto.
  - exists 0%nat, x. auto.
Qed.

Lemma not_joined_moves s :
  joined s = false -> exists tid s', step lib tid s = Some s'.
Proof.
  intros Hj. destruct (not_all_exited _ Hj) as (i & w & Hi & Hw).
  destruct (thread_target_moves i (history s) (counter s) (error s) w Hw)
    as [[[[w' c'] e'] evs] Hr].
  exists i. unfold step. rewrite Hi, Hr. eauto.
Qed.

(** From any state some schedule lets every thread return. *)
Lemma terminates s :
  int_range (counter s) -> exists sched, joined (exec lib sched s) = true.
Proof.
  remember (measure s) as m eqn:Hm. revert s Hm.
  induction m as [m IH] using (well_founded_induction (Z.lt_wf 0)).
  intros s Hm Hr. destruct (joined s) eqn:Hj.
  - exists []. exact Hj.
  - destruct (not_joined_moves s Hj) as (tid & s' & Hs).
    pose proof (measure_step _ _ _ Hr Hs) as Hlt.
    pose proof (measure_nonneg s').
    destruct (IH (measure s') ltac:(lia) s' eq_refl
                 (counter_range_step _ _ _ Hr Hs)) as [sched Hsched].
    exists (tid :: sched). simpl. rewrite Hs. exact Hsched.
Qed.

Lemma start_terminates times n :
  exists sched, joined (exec lib sched (start times n)) = true.
Proof. apply terminates. simpl. apply to_int_range. Qed.

(** ** What each worker has done *)

Lemma events_of_same t evs h :
  events_of t (map (pair t) evs ++ h) = evs ++ events_of t h.
Proof.
  induction evs as [|e evs IH]; simpl; [reflexivity|].
  rewrite Nat.eqb_refl, IH. reflexivity.
Qed.

Lemma events_of_other t t' evs h :
  t' <> t -> events_of t' (map (pair t) evs ++ h) = events_of t' h.
Proof.
  intros Hne. induction evs as [|e evs IH]; simpl; [reflexivity|].
  destruct (Nat.eqb t t') eqn:E; [apply Nat.eqb_eq in E; congruence | exact IH].
Qed.

Lemma occurrences_events_of p t h :
  existsb p (events_of t h) = true -> 1 <= occurrences p h.
Proof.
  induction h as [|[t' e] h IH]; simpl; [discriminate|].
  pose proof (occurrences_nonneg p h).
  destruct (Nat.eqb t' t); simpl.
  - destruct (p e); simpl; [lia|]. intros H'. specialize (IH H'). lia.
  - intros H'. specialize (IH H'). destruct (p e); lia.
Qed.

Lemma thread_inv_mono e e' evs w :
  (e <> 0 -> e' <> 0) -> thread_inv e evs w -> thread_inv e' evs w.
Proof.
  unfold thread_inv, reports_failure. intros He. destruct (pc w); try tauto.
  all: intuition auto.
Qed.

(** Once set, the error flag stays set: the only store writes a non-zero
    value. *)
Lemma error_sticky tid s s' :
  step lib tid s = Some s' -> error s <> 0 -> error s' <> 0.
Proof.
  intros H. step_cases H; zbool; congruence.
Qed.

Lemma sound_start times n : sound (start times n).
Proof.
  split; [|reflexivity]. simpl. intros tid w Hw.
  apply lookup_replicate in Hw as [-> _]. cbv. intuition discriminate.
Qed.

Lemma sound_step tid s s' : sound s -> step lib tid s = Some s' -> sound s'.
Proof.
  intros [HT HE] H. pose proof (error_sticky _ _ _ H) as Hsticky. split.
  - intros t w1. destruct (Nat.eq_dec t tid) as [->|Hne].
    + apply step_inv in H as (w & w' & c & e & evs & Hw & Ht & Hc & He & Hp & Hh).
      specialize (HT _ _ Hw). rewrite Hp, Hh, He, events_of_same.
      rewrite list_lookup_insert_eq by (eapply lookup_lt_Some; eauto).
      intros [= <-]. revert HT. generalize (events_of tid (history s)). intros l.
      unfold thread_inv, reports_failure, released.
      thread_cases Ht;
        cbn [pc sws src_frame dst_frame err at_label app existsb
             is_construction_failure is_work is_store];
        repeat match goal with
               | Hb : ?b = true |- context [?b] => rewrite Hb
               | Hb : ?b = false |- context [?b] => rewrite Hb
               end;
        cbn [negb orb]; intros HT;
        repeat match type of HT with
               | context [if ?b then _ else _] => destruct b eqn:?
               end;
        repeat match goal with
               | Hx : _ /\ _ |- _ => destruct Hx
               | Hx : exists _, _ |- _ => destruct Hx
               end;
        subst; zbool; try (intuition (eauto; congruence)).
    + apply step_inv in H as (w & w' & c & e & evs & Hw & Ht & Hc & He & Hp & Hh).
      rewrite Hp, Hh, list_lookup_insert_ne, events_of_other by congruence.
      intros Hw1. eapply thread_inv_mono; [|eapply HT; eauto]. rewrite He. 
      intros Hz. apply Hsticky in Hz. congruence.
  - pose proof (occurrences_nonneg is_construction_failure (history s)) as Hnn.
    assert (Hfail : forall w, thread_pool s !! tid = Some w -> pc w = L_fail ->
              err w <> 0 -> 1 <= occurrences is_construction_failure (history s)).
    { intros w Hw Hpc Herr. specialize (HT _ _ Hw). unfold thread_inv in HT.
      rewrite Hpc in HT. apply (occurrences_events_of _ tid).
      destruct (existsb is_construction_failure (events_of tid (history s)));
        [reflexivity | congruence]. }
    step_cases H; zbool; try (intros; apply HE; lia).
    specialize (Hfail _ Hw eq_refl). cbn [err] in Hfail. lia.
Qed.

Lemma sound_exec sched times n : sound (exec lib sched (start times n)).
Proof.
  apply exec_invariant; [|apply sound_start].
  intros tid s s'. apply sound_step.
Qed.

(** ** Claimed units *)

Lemma wrap_free_unobserved c0 n : wrap_free c0 n -> unobserved_wrap c0 n.
Proof. unfold wrap_free, unobserved_wrap. lia. Qed.

Lemma claimed_units_length h :
  Z.of_nat (length (claimed_units h)) = occurrences is_claim h.
Proof.
  induction h as [|[t e] h IH]; [reflexivity|].
  destruct e; cbn [claimed_units occurrences is_claim]; try lia.
  destruct (0 <? pre); cbn [length]; lia.
Qed.

(** When nothing wraps, the decrement of a worker in flight is exact. *)
Lemma decrement_exact c0 s tid w :
  int_range c0 ->
  wrap_free c0 (Z.of_nat (length (thread_pool s))) ->
  accounts c0 s -> claims_bounded c0 s ->
  thread_pool s !! tid = Some w -> in_flight w = 1 ->
  to_int (counter s - 1) = counter s - 1.
Proof.
  intros Hc0 Hn Ha Hb Hw Hf.
  pose proof (in_flight_reads _ _ _ _ Hc0 (wrap_free_unobserved _ _ Hn) Ha Hb Hw Hf).
  pose proof (tally_lookup_le in_flight _ _ _ in_flight_nonneg Hw).
  pose proof (occurrences_nonneg is_claim (history s)).
  pose proof (occurrences_nonneg is_break (history s)).
  pose proof (occurrences_nonneg is_failure (history s)).
  destruct Ha as [_ _ Hflight]. destruct Hb as [Hb _].
  apply to_int_id. revert Hc0 Hn. unfold int_range, wrap_free, INT_MIN, INT_MAX. lia.
Qed.

(** A decrement lowers the counter by one when nothing wraps; every other
    operation leaves it alone. *)
Lemma counter_step c0 tid s s' :
  int_range c0 ->
  wrap_free c0 (Z.of_nat (length (thread_pool s))) ->
  accounts c0 s -> claims_bounded c0 s ->
  step lib tid s = Some s' ->
  counter s' = counter s \/ counter s' = counter s - 1.
Proof.
  intros Hc0 Hn Ha Hb H.
  pose proof (decrement_exact c0 s tid) as Hlow.
  step_cases H; try (left; reflexivity); right; eapply Hlow; eauto.
Qed.

Lemma units_fresh_step c0 tid s s' :
  int_range c0 ->
  wrap_free c0 (Z.of_nat (length (thread_pool s))) ->
  accounts c0 s -> claims_bounded c0 s -> units_fresh s ->
  step lib tid s = Some s' -> units_fresh s'.
Proof.
  intros Hc0 Hn Ha Hb [Hd Hu] H.
  pose proof (decrement_exact c0 s tid) as Hlow.
  unfold units_fresh.
  step_cases H; try rewrite (Hlow _ Hc0 Hn Ha Hb Hw eq_refl); zbool; try lia;
    try (split; [exact Hd | intros u Hin; specialize (Hu u Hin); lia]).
  rewrite fmap_cons. change ((tid, counter s).2) with (counter s). split.
  - apply NoDup_cons. split; [|exact Hd].
    intros Hin. specialize (Hu _ Hin). lia.
  - intros u Hin. apply elem_of_cons in Hin as [->|Hin]; [lia|].
    specialize (Hu u Hin). lia.
Qed.

Lemma snd_unique (l : list (nat * Z)) i j u :
  NoDup (snd <$> l) -> (i, u) ∈ l -> (j, u) ∈ l -> i = j.
Proof.
  induction l as [|[a b] l IH]; intros Hd Hi Hj.
  - apply elem_of_nil in Hi. contradiction.
  - rewrite fmap_cons in Hd. change ((a, b).2) with b in Hd.
    apply NoDup_cons in Hd as [Hb Hd].
    apply elem_of_cons in Hi as [Hi|Hi]; apply elem_of_cons in Hj as [Hj|Hj].
    + congruence.
    + exfalso. apply Hb. injection Hi as _ <-.
      apply (list_elem_of_fmap_2 snd _ _ Hj).
    + exfalso. apply Hb. injection Hj as _ <-.
      apply (list_elem_of_fmap_2 snd _ _ Hi).
    + exact (IH Hd Hi Hj).
Qed.

Lemma wrap_free_exec sched times n :
  0 <= n ->
  wrap_free (to_int (to_unsigned (times * n))) n ->
  let s := exec lib sched (start times n) in
  accounts (to_int (to_unsigned (times * n))) s /\
  claims_bounded (to_int (to_unsigned (times * n))) s /\
  length (thread_pool s) = Z.to_nat n /\
  units_fresh s.
Proof.
  intros Hn Hw. cbv zeta.
  apply (exec_invariant (fun s =>
           accounts (to_int (to_unsigned (times * n))) s /\
           claims_bounded (to_int (to_unsigned (times * n))) s /\
           length (thread_pool s) = Z.to_nat n /\ units_fresh s)).
  - intros tid s s' (Ha & Hb & Hl & Hu) H.
    assert (wrap_free (to_int (to_unsigned (times * n))) (Z.of_nat (length (thread_pool s))))
      by (rewrite Hl, Z2Nat.id by lia; exact Hw).
    repeat split.
    + eapply accounts_step; eauto.
    + eapply accounts_step; eauto.
    + eapply accounts_step; eauto.
    + eapply claims_bounded_step; eauto using to_int_range, wrap_free_unobserved.
    + eapply claims_bounded_step; eauto using to_int_range, wrap_free_unobserved.
    + rewrite (step_length _ _ _ H). exact Hl.
    + eapply units_fresh_step; eauto using to_int_range.
    + eapply units_fresh_step; eauto using to_int_range.
  - repeat split; try apply accounts_start; try apply claims_bounded_start;
      try apply start_length; try exact Hn.
    + simpl. apply NoDup_nil. exact I.
    + simpl. intros u Hu. apply elem_of_nil in Hu. contradiction.
Qed.

End Run.

(** ** Schedules, verdicts and sweeps *)

Lemma exec_app lib sched sched' s :
  exec lib (sched ++ sched') s = exec lib sched' (exec lib sched s).
Proof.
  revert s. induction sched as [|tid rest IH]; intros s; simpl; [reflexivity | apply IH].
Qed.



Lemma joined_lookup s tid w :
  joined s = true -> thread_pool s !! tid = Some w -> pc w = L_exit.
Proof.
  unfold joined. intros Hj Hw.
  assert (Hx : exited w = true).
  { revert tid Hw Hj. generalize (thread_pool s). intros l.
    induction l as [|x l IH]; intros [|i] Hi Hj; simpl in *; try discriminate.
    - injection Hi as ->. apply andb_true_iff in Hj. tauto.
    - apply andb_true_iff in Hj. eapply IH; [exact Hi | tauto]. }
  unfold exited in Hx. destruct (pc w); congruence.
Qed.

Lemma sweep_enter env times thread_max fuel n :
  n <= thread_max ->
  sweep env times thread_max (S fuel) n =
  match run_coordinator (env n) times n with
  | run_blocked => Sweep [] [] [n] blocked
  | run_failed e => Sweep [] [failure e] [n] thrown
  | run_ok =>
      let r := sweep env times thread_max fuel (to_unsigned (n + 1)) in
      Sweep (report_block times n (elapsed (env n)) ++ stdout r)
            (stderr r) (n :: runs r) (status r)
  end.
Proof.
  intros Hn. cbn [sweep]. apply Z.leb_le in Hn. rewrite Hn. reflexivity.
Qed.

Lemma sweep_leave env times thread_max fuel n :
  thread_max < n -> sweep env times thread_max fuel n = Sweep [] [] [] returned.
Proof.
  intros Hn. apply Z.leb_gt in Hn. destruct fuel; cbn [sweep]; rewrite Hn; reflexivity.
Qed.

Lemma run_coordinator_ok w times n :
  joined (exec (lib w) (schedule w) (start times n)) = true ->
  error (exec (lib w) (schedule w) (start times n)) = 0 ->
  run_coordinator w times n = run_ok.
Proof. unfold run_coordinator. intros -> ->. reflexivity. Qed.

Lemma run_coordinator_failed w times n :
  joined (exec (lib w) (schedule w) (start times n)) = true ->
  error (exec (lib w) (schedule w) (start times n)) <> 0 ->
  run_coordinator w times n
  = run_failed (error (exec (lib w) (schedule w) (start times n))).
Proof.
  unfold run_coordinator. intros -> He. apply Z.eqb_neq in He. rewrite He. reflexivity.
Qed.

(** The error flag is set by failed constructions only. *)
Lemma error_only_from_construction lib sched times n :
  let s := exec lib sched (start times n) in
  occurrences is_construction_failure (history s) = 0 -> error s = 0.
Proof. intros s. apply (sound_exec lib sched times n). Qed.

Lemma no_construction_failure lib sched times n :
  (forall t h, getContext_ok lib t h = true) ->
  (forall t f h, frame_alloc_ok lib t f h = true) ->
  (forall t f h, get_buffer_ret lib t f h = 0) ->
  occurrences is_construction_failure (history (exec lib sched (start times n))) = 0.
Proof.
  intros H1 H2 H3. apply exec_invariant; [|reflexivity].
  intros tid s s' Hs H. step_cases H; zbool;
    rewrite ?H1, ?H2, ?H3 in *; try discriminate; try congruence; lia.
Qed.

(** On entry to the claim loop [err] is zero (line 64 stored the zero
    result of [av_frame_get_buffer] into it), and the jump of line 72
    leaves it so: the store of line 78 is skipped. Whatever the
    conversions return, the flag stays clear as long as every
    construction succeeds. *)
Lemma conversion_failures_leave_flag_clear lib sched times n :
  (forall t h, getContext_ok lib t h = true) ->
  (forall t f h, frame_alloc_ok lib t f h = true) ->
  (forall t f h, get_buffer_ret lib t f h = 0) ->
  error (exec lib sched (start times n)) = 0.
Proof.
  intros H1 H2 H3. apply error_only_from_construction.
  apply no_construction_failure; assumption.
Qed.

(** [k] successful runs in a row, from [n] on, leave the sweep at [n + k]
    with their [k] blocks printed in ascending order. *)
Lemma sweep_ok_prefix env times thread_max (k : nat) :
  forall fuel n,
    0 <= n -> n + Z.of_nat k <= thread_max + 1 -> thread_max < UINT_MAX ->
    (forall i, n <= i < n + Z.of_nat k -> run_coordinator (env i) times i = run_ok) ->
    sweep env times thread_max (k + fuel) n
    = let r := sweep env times thread_max fuel (n + Z.of_nat k) in
      Sweep (blocks env times (seqZ n (Z.of_nat k)) ++ stdout r) (stderr r)
            (seqZ n (Z.of_nat k) ++ runs r) (status r).
Proof.
  induction k as [|k IH]; intros fuel n Hn Hk Hmax Hok.
  - cbn [Nat.add Z.of_nat seqZ blocks app]. rewrite Z.add_0_r.
    rewrite seqZ_nil by lia. cbn [blocks app].
    destruct (sweep env times thread_max fuel n); reflexivity.
  - cbn [Nat.add]. rewrite sweep_enter by lia. rewrite (Hok n) by lia.
    rewrite to_unsigned_id by lia.
    rewrite (IH fuel (n + 1)); [|lia|lia|exact Hmax|intros i Hi; apply Hok; lia].
    rewrite (seqZ_cons n (Z.of_nat (S k))) by lia.
    replace (Z.pred (Z.of_nat (S k))) with (Z.of_nat k) by lia.
    replace (Z.succ n) with (n + 1) by lia.
    replace (n + Z.of_nat (S k)) with (n + 1 + Z.of_nat k) by lia.
    cbv zeta. cbn [stdout stderr runs status blocks app].
    rewrite <- app_assoc. reflexivity.
Qed.

(** ** The flag and the counter of a run *)



(** ** Threads that cannot be started *)

Lemma first_refused_none can_start (k : nat) :
  forall nn,
    (forall i, nn <= i < nn + Z.of_nat k -> can_start i = true) ->
    first_refused can_start k nn = None.
Proof.
  induction k as [|k IH]; intros nn H; cbn [first_refused]; [reflexivity|].
  rewrite H by lia. apply IH. intros i Hi. apply H. lia.
Qed.

Lemma first_refused_some can_start (j : nat) :
  forall (k : nat) nn,
    (j < k)%nat ->
    (forall i, nn <= i < nn + Z.of_nat j -> can_start i = true) ->
    can_start (nn + Z.of_nat j) = false ->
    first_refused can_start k nn = Some (nn + Z.of_nat j).
Proof.
  induction j as [|j IH]; intros k nn Hk Hok Hno;
    (destruct k as [|k]; [lia|]); cbn [first_refused].
  - rewrite Z.add_0_r in *. rewrite Hno. reflexivity.
  - rewrite Hok by lia.
    replace (nn + Z.of_nat (S j)) with (nn + 1 + Z.of_nat j) in * by lia.
    apply IH; [lia | intros i Hi; apply Hok; lia | exact Hno].
Qed.

(** A refused thread is one of the run's threads, the platform refused it,
    and the threads before it were started. *)
Lemma first_refused_inv can_start (k : nat) :
  forall nn j,
    first_refused can_start k nn = Some j ->
    nn <= j < nn + Z.of_nat k /\ can_start j = false /\
    (forall i, nn <= i < j -> can_start i = true).
Proof.
  induction k as [|k IH]; intros nn j H; cbn [first_refused] in H; [discriminate|].
  destruct (can_start nn) eqn:E.
  - apply IH in H as (H1 & H2 & H3). split; [lia|]. split; [exact H2|].
    intros i Hi. destruct (Z.eq_dec i nn) as [->|Hne]; [exact E | apply H3; lia].
  - injection H as <-. split; [lia|]. split; [exact E|]. intros i Hi. lia.
Qed.

Lemma emplace_all_none p n :
  (forall nn, 0 <= nn < n -> p n nn = true) -> emplace_all p n = None.
Proof.
  intros H. unfold emplace_all. apply first_refused_none.
  intros i Hi. apply H. lia.
Qed.

Lemma emplace_all_some p n nn :
  0 <= nn < n -> (forall i, 0 <= i < nn -> p n i = true) -> p n nn = false ->
  emplace_all p n = Some nn.
Proof.
  intros Hnn Hok Hno. unfold emplace_all.
  pose proof (first_refused_some (p n) (Z.to_nat nn) (Z.to_nat n) 0) as H.
  rewrite Z.add_0_l, Z2Nat.id in H by lia.
  apply H; [lia | intros i Hi; apply Hok; lia | exact Hno].
Qed.

Lemma emplace_all_inv p n nn :
  emplace_all p n = Some nn ->
  0 <= nn < n /\ p n nn = false /\ (forall i, 0 <= i < nn -> p n i = true).
Proof.
  unfold emplace_all. intros H. apply first_refused_inv in H as (H1 & H2 & H3).
  split; [lia|]. split; [exact H2 | exact H3].
Qed.

Lemma sweep_on_enter p env times thread_max fuel n :
  n <= thread_max ->
  sweep_on p env times thread_max (S fuel) n =
  match emplace_all p n with
  | Some nn => Outcome [] [] [] (if nn =? 0 then system_error n else terminate n nn)
  | None =>
      let s := run_state (env n) times n in
      match run_coordinator (env n) times n with
      | run_blocked => Outcome [] [] [(n, s)] (as_status blocked)
      | run_failed e => Outcome [] [failure e] [(n, s)] (as_status thrown)
      | run_ok =>
          let r := sweep_on p env times thread_max fuel (to_unsigned (n + 1)) in
          Outcome (report_block times n (elapsed (env n)) ++ cout r)
                  (cerr r) ((n, s) :: made r) (leaving r)
      end
  end.
Proof.
  intros Hn. cbn [sweep_on]. apply Z.leb_le in Hn. rewrite Hn. reflexivity.
Qed.

(** Where every thread is started, the sweep goes as [sweep] has it. *)
Lemma sweep_on_started p env times thread_max fuel :
  forall n,
    0 <= n -> thread_max < UINT_MAX ->
    (forall i, n <= i <= thread_max -> emplace_all p i = None) ->
    sweep_on p env times thread_max fuel n
    = let r := sweep env times thread_max fuel n in
      Outcome (stdout r) (stderr r) (states env times (runs r)) (as_status (status r)).
Proof.
  induction fuel as [|fuel IH]; intros n Hn Hmax Hp; cbn [sweep_on sweep];
    destruct (n <=? thread_max) eqn:Hle; try reflexivity.
  apply Z.leb_le in Hle. rewrite Hp by lia.
  destruct (run_coordinator (env n) times n); try reflexivity.
  rewrite to_unsigned_id by lia.
  rewrite (IH (n + 1)); [reflexivity | lia | exact Hmax |].
  intros i Hi. apply Hp. lia.
Qed.

Lemma execute_on_started p env a hw fuel :
  0 <= threads a < UINT_MAX -> 0 <= hw < UINT_MAX ->
  (forall n nn, 0 <= nn < n -> n <= (if threads a =? 0 then hw else threads a) ->
                p n nn = true) ->
  execute_on p env a hw fuel
  = let r := execute env a hw fuel in
    Outcome (stdout r) (stderr r) (states env (times a) (runs r))
            (as_status (status r)).
Proof.
  intros Ht Hhw Hp. unfold execute_on, execute.
  rewrite sweep_on_started.
  - reflexivity.
  - destruct (threads a =? 0); lia.
  - destruct (threads a =? 0); lia.
  - intros i Hi. apply emplace_all_none. intros nn Hnn. apply Hp; [exact Hnn | lia].
Qed.

(** The runs a sweep made are runs of the worlds it met, each begun by
    [start]; all but a last one that failed or never joined were
    successful. *)
Lemma sweep_on_made p env times thread_max fuel :
  forall lo n s,
    let r := sweep_on p env times thread_max fuel lo in
    In (n, s) (made r) ->
    s = run_state (env n) times n /\
    (In n (reported r) -> run_coordinator (env n) times n = run_ok).
Proof.
  induction fuel as [|fuel IH]; intros lo n s; cbv zeta; cbn [sweep_on];
    destruct (lo <=? thread_max); try (cbn [made]; intros []).
  destruct (emplace_all p lo) as [nn|]; [cbn [made]; intros []|].
  cbv zeta. destruct (run_coordinator (env lo) times lo) eqn:Hrun.
  - specialize (IH (to_unsigned (lo + 1)) n s). cbv zeta in IH.
    set (r' := sweep_on p env times thread_max fuel (to_unsigned (lo + 1))) in *.
    unfold reported. cbn [made leaving map fst].
    intros [[= <- <-]|Hin].
    + split; [reflexivity|]. intros _. exact Hrun.
    + destruct (IH Hin) as [Hs Hrep]. split; [exact Hs|].
      unfold reported in Hrep.
      assert (Hne : map fst (made r') <> [])
        by (destruct (made r'); [destruct Hin | discriminate]).
      assert (Hlast : forall x, In x (removelast (lo :: map fst (made r'))) ->
                x = lo \/ In x (removelast (map fst (made r')))).
      { intros x. destruct (map fst (made r')) as [|y l] eqn:El; [congruence|].
        cbn [removelast]. fold (removelast (y :: l)).
        intros [Hx|Hx]; [left; auto | right; exact Hx]. }
      intros Hrep'.
      destruct (Z.eq_dec n lo) as [->|Hneq]; [exact Hrun|].
      apply Hrep.
      destruct (leaving r') as [[]| |];
        first [ destruct Hrep' as [Hx|Hx]; [congruence | exact Hx]
              | apply Hlast in Hrep' as [Hx|Hx]; [congruence | exact Hx] ].
  - unfold reported. cbn [made leaving map fst removelast].
    intros [[= <- <-]|[]]. split; [reflexivity | intros []].
  - unfold reported. cbn [made leaving map fst removelast].
    intros [[= <- <-]|[]]. split; [reflexivity | intros []].
Qed.

(** * The claims *)

(** ** C1: a conversion call that fails *)

(** C1 on the code: one thread, one iteration, and a conversion call that
    returns -1. The worker stops claiming at once and releases what it
    holds, but never stores into the error flag: the flag is zero after
    the join, the run is reported as successful with one iteration, and
    the process exits with status 0. *)
Theorem C1_conversion_failure_unreported :
  let w := World scale_fails (replicate 11 0%nat) 1 in
  let s := exec (lib w) (schedule w) (start 1 1) in
  joined s = true /\
  events_of 0 (history s)
  = [sws_freeContext; av_frame_free Dst; av_frame_free Src;
     sws_scale (-1); fetch_sub 1;
     av_frame_get_buffer Dst 0; av_frame_get_buffer Src 0;
     av_frame_alloc Dst true; av_frame_alloc Src true; sws_getContext true] /\
  occurrences is_store (history s) = 0 /\
  error s = 0 /\
  run_coordinator w 1 1 = run_ok /\
  execute (fun _ => w) (sample_args 1 1) 1 1
  = Sweep [header (sample_args 1 1); blank; threads_line 1; iterations_line 1;
           fps_line (quotient 1 1)] [] [1] returned /\
  main (fun _ => w) (sample_args 1 1) 1 1 = Some 0.
Proof. cbv zeta. repeat split; vm_compute; reflexivity. Qed.

(** ** C2: the number of conversion calls *)

(** C2, as stated, fails: with 2147483648 iterations per thread and 2
    threads the unsigned product wraps to 0, the counter starts at 0, and a
    run in which nothing fails makes no conversion call at all, not
    2147483648 * 2 of them. *)
Lemma C2_counterexample :
  let s := exec always_ok (two_in_turn 10) (start 2147483648 2) in
  1 <= 2 /\ 0 <= 2147483648 /\
  joined s = true /\ occurrences is_failure (history s) = 0 /\
  conversions s = 0 /\ conversions s <> 2147483648 * 2.
Proof. vm_compute. repeat split; congruence. Qed.

(** C2 (amended): for N >= 1 threads and K >= 0 iterations per thread with
    N * K <= INT_MAX (and N <= 2^31 + 1, which matters only for K = 0), a
    run can always be scheduled to its end; it never makes more than N * K
    conversion calls; and once all threads have returned without any
    failed call it has made exactly N * K of them. *)
Theorem C2_conversions_exact (lib : swscale) (times n : Z) :
  1 <= n -> 0 <= times -> times * n <= INT_MAX -> n <= 2147483649 ->
  (exists sched, joined (exec lib sched (start times n)) = true) /\
  (forall sched, conversions (exec lib sched (start times n)) <= times * n) /\
  (forall sched,
      let s := exec lib sched (start times n) in
      joined s = true -> occurrences is_failure (history s) = 0 ->
      conversions s = times * n).
Proof.
  intros Hn Ht Hmax Hn'.
  assert (Hc0 : to_int (to_unsigned (times * n)) = times * n).
  { unfold INT_MAX in Hmax. rewrite to_unsigned_id by (unfold UINT_MAX; nia).
    apply to_int_id. unfold int_range, INT_MIN, INT_MAX. nia. }
  assert (Hwrap : unobserved_wrap (to_int (to_unsigned (times * n))) n).
  { rewrite Hc0. unfold unobserved_wrap. nia. }
  split; [apply start_terminates|]. split.
  - intros sched.
    destruct (bounded_exec lib sched times n ltac:(lia) Hwrap) as (Ha & [Hb _] & _).
    pose proof (conversions_le_claims _ _ Ha). rewrite Hc0 in Hb. nia.
  - intros sched s Hj Hf.
    destruct (bounded_exec lib sched times n ltac:(lia) Hwrap) as (Ha & [Hb1 Hb2] & Hl).
    fold s in Ha, Hb1, Hb2, Hl.
    rewrite (conversions_joined _ _ Ha Hj).
    pose proof (breaks_joined _ _ Ha Hj Hf) as Hbr.
    rewrite Hl, Z2Nat.id in Hbr by lia. rewrite Hc0 in Hb1, Hb2. nia.
Qed.

(** C2 at K = 3 and N = 2: six conversion calls. *)
Lemma C2_witness :
  let s := exec always_ok (two_in_turn 30) (start 3 2) in
  (exists sched, joined (exec always_ok sched (start 3 2)) = true) /\
  conversions s <= 3 * 2 /\ conversions s = 3 * 2.
Proof.
  pose proof (C2_conversions_exact always_ok 3 2) as H.
  destruct H as (H1 & H2 & H3); [lia | lia | unfold INT_MAX; lia | lia |].
  split; [exact H1|]. split; [apply H2|]. apply H3; reflexivity.
Defined.

(** ** C3: the counter only goes down, and units are claimed once *)

(** C3, as stated, fails: with 1073741824 iterations per thread and 2
    threads the counter starts at INT_MIN. The decrement of the first
    worker wraps it to INT_MAX, so an operation on the counter raised it;
    the second worker then claims a unit, so one unit is claimed although
    the initial value is negative. *)
Lemma C3_counterexample :
  let c0 := counter (start 1073741824 2) in
  let s1 := exec always_ok (replicate 5 0%nat) (start 1073741824 2) in
  let s3 := exec always_ok (replicate 6 0%nat ++ replicate 6 1%nat) (start 1073741824 2) in
  c0 = INT_MIN /\
  (exists s2, step always_ok 0%nat s1 = Some s2 /\ counter s1 < counter s2) /\
  Z.of_nat (length (claimed_units (history s3))) = 1 /\
  ~ Z.of_nat (length (claimed_units (history s3))) <= c0.
Proof.
  cbv zeta. split; [reflexivity|]. split; [|split].
  - eexists. split; [vm_compute; reflexivity|]. vm_compute. reflexivity.
  - vm_compute. reflexivity.
  - vm_compute. intros H. apply H. reflexivity.
Qed.

(** C3 (amended): when no decrement can wrap, that is when the number of
    threads is at most [min c0 0 + 2^31] for the initial value [c0], the
    counter never increases, whether from one operation to the next or
    over any continuation of the run; no unit is claimed twice, so no two
    workers claim the same unit; and the number of claims never exceeds
    [c0], or 0 when [c0] is negative. *)
Theorem C3_counter_monotone (lib : swscale) (times n : Z) (sched : list nat) :
  0 <= n -> wrap_free (to_int (to_unsigned (times * n))) n ->
  let c0 := to_int (to_unsigned (times * n)) in
  let s := exec lib sched (start times n) in
  (forall tid s', step lib tid s = Some s' -> counter s' <= counter s) /\
  (forall sched', counter (exec lib (sched ++ sched') (start times n)) <= counter s) /\
  NoDup (snd <$> claimed_units (history s)) /\
  (forall i j u, (i, u) ∈ claimed_units (history s) ->
                 (j, u) ∈ claimed_units (history s) -> i = j) /\
  Z.of_nat (length (claimed_units (history s))) <= Z.max c0 0.
Proof.
  intros Hn Hw c0 s.
  assert (Hstep : forall sched0 tid s', step lib tid (exec lib sched0 (start times n)) = Some s' ->
            counter s' <= counter (exec lib sched0 (start times n))).
  { intros sched0 tid s' H.
    destruct (wrap_free_exec lib sched0 times n Hn Hw) as (Ha & Hb & Hl & _).
    assert (Hw' : wrap_free c0 (Z.of_nat (length (thread_pool (exec lib sched0 (start times n))))))
      by (rewrite Hl, Z2Nat.id by lia; exact Hw).
    destruct (counter_step _ _ _ _ _ (to_int_range _) Hw' Ha Hb H); lia. }
  assert (Hcont : forall sched' sched0,
            counter (exec lib (sched0 ++ sched') (start times n))
            <= counter (exec lib sched0 (start times n))).
  { induction sched' as [|tid rest IH]; intros sched0.
    - rewrite app_nil_r. lia.
    - replace (sched0 ++ tid :: rest) with ((sched0 ++ [tid]) ++ rest)
        by (rewrite <- app_assoc; reflexivity).
      etransitivity; [apply IH|].
      rewrite exec_app. simpl.
      destruct (step lib tid (exec lib sched0 (start times n))) as [s'|] eqn:E;
        [eapply Hstep; eauto | lia]. }
  destruct (wrap_free_exec lib sched times n Hn Hw) as (Ha & [Hb _] & Hl & Hd & Hu).
  fold s in Ha, Hb, Hl, Hd, Hu. fold c0 in Ha, Hb.
  split; [apply Hstep|]. split; [|split; [exact Hd|split]].
  - intros sched'. apply Hcont.
  - intros i j u. apply snd_unique. exact Hd.
  - rewrite claimed_units_length. exact Hb.
Qed.

(** C3 at K = 3 and N = 2, with the two workers taking turns. *)
Lemma C3_witness :
  let sched := concat (replicate 12 [0%nat; 1%nat]) in
  let s := exec always_ok sched (start 3 2) in
  (forall tid s', step always_ok tid s = Some s' -> counter s' <= counter s) /\
  (forall sched', counter (exec always_ok (sched ++ sched') (start 3 2)) <= counter s) /\
  NoDup (snd <$> claimed_units (history s)) /\
  (forall i j u, (i, u) ∈ claimed_units (history s) ->
                 (j, u) ∈ claimed_units (history s) -> i = j) /\
  Z.of_nat (length (claimed_units (history s))) <= Z.max 6 0.
Proof.
  apply (C3_counter_monotone always_ok 3 2 (concat (replicate 12 [0%nat; 1%nat]))).
  - lia.
  - vm_compute. discriminate.
Defined.

(** ** C4: a construction that fails *)



(** ** C5: the runs of a sweep *)

(** C5, as stated, fails for the fixed thread count 4294967295 on a
    platform with room for 32735 threads: thread 32735 cannot be started,
    the exception of line 103 destroys a pool of joinable threads, and
    [std::terminate] ends the process. No run is completed, no report
    block is printed and no failure notice either. *)
Lemma C5_counterexample :
  emplace_all (room_for 32735) 4294967295 = Some 32735 /\
  (forall env hw fuel,
     execute_on (room_for 32735) env (sample_args 100 4294967295) hw (S fuel)
     = Outcome [header (sample_args 100 4294967295)] [] []
               (terminate 4294967295 32735) /\
     main_on (room_for 32735) env (sample_args 100 4294967295) hw (S fuel)
     = ([], aborted)).
Proof.
  assert (Hemp : emplace_all (room_for 32735) 4294967295 = Some 32735).
  { apply emplace_all_some; unfold room_for.
    - lia.
    - intros i Hi. apply Z.ltb_lt. lia.
    - reflexivity. }
  split; [exact Hemp|]. intros env hw fuel.
  assert (Hexec : execute_on (room_for 32735) env (sample_args 100 4294967295) hw (S fuel)
                  = Outcome [header (sample_args 100 4294967295)] [] []
                            (terminate 4294967295 32735)).
  { unfold execute_on, sample_args. cbn [threads times Z.eqb].
    rewrite sweep_on_enter by lia. rewrite Hemp. reflexivity. }
  split; [exact Hexec|]. unfold main_on. rewrite Hexec. reflexivity.
Qed.

(** The sweep when every thread is started. *)
Lemma execute_runs (env : Z -> world) (a : Arguments) (hw : Z) (fuel : nat) :
  0 <= threads a < UINT_MAX -> 0 <= hw < UINT_MAX ->
  (threads a <> 0 ->
   (run_coordinator (env (threads a)) (times a) (threads a) = run_ok ->
    execute env a hw (S fuel)
    = Sweep (header a :: report_block (times a) (threads a) (elapsed (env (threads a))))
            [] [threads a] returned) /\
   (forall e, run_coordinator (env (threads a)) (times a) (threads a) = run_failed e ->
    execute env a hw (S fuel) = Sweep [header a] [failure e] [threads a] thrown)) /\
  (threads a = 0 ->
   ((forall i, 1 <= i <= hw -> run_coordinator (env i) (times a) i = run_ok) ->
    execute env a hw (Z.to_nat hw + fuel)
    = Sweep (header a :: blocks env (times a) (seqZ 1 hw)) [] (seqZ 1 hw) returned) /\
   (forall k e,
       1 <= k <= hw ->
       (forall i, 1 <= i < k -> run_coordinator (env i) (times a) i = run_ok) ->
       run_coordinator (env k) (times a) k = run_failed e ->
       execute env a hw (Z.to_nat (k - 1) + S fuel)
       = Sweep (header a :: blocks env (times a) (seqZ 1 (k - 1)))
               [failure e] (seqZ 1 k) thrown)).
Proof.
  intros Ht Hhw. split.
  - intros Hfix. apply Z.eqb_neq in Hfix. unfold execute. rewrite Hfix. split.
    + intros Hrun. rewrite sweep_enter by lia. rewrite Hrun.
      rewrite to_unsigned_id by lia. rewrite sweep_leave by lia.
      cbv zeta. cbn [stdout stderr runs status]. rewrite app_nil_r. reflexivity.
    + intros e Hrun. rewrite sweep_enter by lia. rewrite Hrun. reflexivity.
  - intros Hrange. unfold execute. rewrite Hrange. cbn [Z.eqb]. split.
    + intros Hok.
      rewrite (sweep_ok_prefix env (times a) hw (Z.to_nat hw) fuel 1);
        [|lia|lia|lia|intros i Hi; apply Hok; lia].
      rewrite Z2Nat.id by lia. rewrite sweep_leave by lia.
      cbv zeta. cbn [stdout stderr runs status]. rewrite !app_nil_r. reflexivity.
    + intros k e Hk Hok Hfail.
      rewrite (sweep_ok_prefix env (times a) hw (Z.to_nat (k - 1)) (S fuel) 1);
        [|lia|lia|lia|intros i Hi; apply Hok; lia].
      rewrite Z2Nat.id by lia. replace (1 + (k - 1)) with k by lia.
      rewrite sweep_enter by lia. rewrite Hfail.
      cbv zeta. cbn [stdout stderr runs status]. rewrite app_nil_r.
      replace (seqZ 1 k) with (seqZ 1 (k - 1) ++ [k]); [reflexivity|].
      replace k with (Z.of_nat (S (Z.to_nat (k - 1)))) at 3 by lia.
      rewrite seqZ_S. rewrite Z2Nat.id by lia. do 2 f_equal. lia.
Qed.

(** C5 (amended): on a platform that starts every thread of every run,
    for a fixed thread count below 4294967295 the sweep makes exactly one
    run, printing the header and one report block when the run succeeds
    and the header and a failure notice when it fails. With no fixed
    thread count and a hardware concurrency M below 4294967295 the sweep
    runs the thread counts 1, 2, ... in ascending order: M runs and M
    report blocks when all succeed; and when run k is the first to fail,
    runs 1 to k only, the blocks of runs 1 to k - 1, and a failure
    notice. *)
Theorem C5_sweep_runs (p : platform) (env : Z -> world) (a : Arguments) (hw : Z)
    (fuel : nat) :
  0 <= threads a < UINT_MAX -> 0 <= hw < UINT_MAX ->
  (forall n nn, 0 <= nn < n -> n <= (if threads a =? 0 then hw else threads a) ->
                p n nn = true) ->
  (threads a <> 0 ->
   (run_coordinator (env (threads a)) (times a) (threads a) = run_ok ->
    execute_on p env a hw (S fuel)
    = Outcome (header a :: report_block (times a) (threads a) (elapsed (env (threads a))))
              [] (states env (times a) [threads a]) (as_status returned)) /\
   (forall e, run_coordinator (env (threads a)) (times a) (threads a) = run_failed e ->
    execute_on p env a hw (S fuel)
    = Outcome [header a] [failure e] (states env (times a) [threads a])
              (as_status thrown))) /\
  (threads a = 0 ->
   ((forall i, 1 <= i <= hw -> run_coordinator (env i) (times a) i = run_ok) ->
    execute_on p env a hw (Z.to_nat hw + fuel)
    = Outcome (header a :: blocks env (times a) (seqZ 1 hw)) []
              (states env (times a) (seqZ 1 hw)) (as_status returned)) /\
   (forall k e,
       1 <= k <= hw ->
       (forall i, 1 <= i < k -> run_coordinator (env i) (times a) i = run_ok) ->
       run_coordinator (env k) (times a) k = run_failed e ->
       execute_on p env a hw (Z.to_nat (k - 1) + S fuel)
       = Outcome (header a :: blocks env (times a) (seqZ 1 (k - 1)))
                 [failure e] (states env (times a) (seqZ 1 k)) (as_status thrown))).
Proof.
  intros Ht Hhw Hp.
  destruct (execute_runs env a hw fuel Ht Hhw) as [Hfix Hrange].
  split.
  - intros Hne. destruct (Hfix Hne) as [Hok Hfail]. split.
    + intros Hrun. rewrite execute_on_started by assumption.
      rewrite (Hok Hrun). reflexivity.
    + intros e Hrun. rewrite execute_on_started by assumption.
      rewrite (Hfail e Hrun). reflexivity.
  - intros Hz. destruct (Hrange Hz) as [Hok Hfail]. split.
    + intros Hrun. rewrite execute_on_started by assumption.
      rewrite (Hok Hrun). reflexivity.
    + intros k e Hk Hrun He. rewrite execute_on_started by assumption.
      rewrite (Hfail k e Hk Hrun He). reflexivity.
Qed.

(** C5 on small sweeps where every thread is started: a fixed count of 2
    that succeeds, a fixed count of 2 that fails, the range 1..2 with
    every run successful, and the range 1..3 whose second run fails. *)
Lemma C5_witness :
  let ok := fun _ : Z => World always_ok round_robin 1 in
  execute_on roomy ok (sample_args 1 2) 8 1
  = Outcome (header (sample_args 1 2) :: report_block 1 2 1) []
            (states ok 1 [2]) (as_status returned) /\
  execute_on roomy fails_at_two (sample_args 1 2) 8 1
  = Outcome [header (sample_args 1 2)] [failure 1]
            (states fails_at_two 1 [2]) (as_status thrown) /\
  execute_on roomy ok (sample_args 1 0) 2 2
  = Outcome (header (sample_args 1 0) :: report_block 1 1 1 ++ report_block 1 2 1)
            [] (states ok 1 [1; 2]) (as_status returned) /\
  execute_on roomy fails_at_two (sample_args 1 0) 3 2
  = Outcome (header (sample_args 1 0) :: report_block 1 1 1) [failure 1]
            (states fails_at_two 1 [1; 2]) (as_status thrown).
Proof.
  intros ok.
  assert (Hargs : forall k t, 0 <= t < UINT_MAX -> 0 <= threads (sample_args k t) < UINT_MAX)
    by (intros k t Ht; exact Ht).
  assert (H8 : 0 <= 8 < UINT_MAX) by (unfold UINT_MAX; lia).
  assert (H3 : 0 <= 3 < UINT_MAX) by (unfold UINT_MAX; lia).
  assert (H2 : 0 <= 2 < UINT_MAX) by (unfold UINT_MAX; lia).
  assert (H0 : 0 <= 0 < UINT_MAX) by (unfold UINT_MAX; lia).
  assert (Hroomy : forall b n nn, 0 <= nn < n -> n <= b -> roomy n nn = true)
    by reflexivity.
  split; [|split; [|split]].
  - destruct (C5_sweep_runs roomy ok (sample_args 1 2) 8 0 (Hargs 1 2 H2) H8 (Hroomy _))
      as [H _].
    destruct H as [H _]; [discriminate|]. apply H. vm_compute. reflexivity.
  - destruct (C5_sweep_runs roomy fails_at_two (sample_args 1 2) 8 0 (Hargs 1 2 H2) H8
                (Hroomy _)) as [H _].
    destruct H as [_ H]; [discriminate|]. apply H. vm_compute. reflexivity.
  - destruct (C5_sweep_runs roomy ok (sample_args 1 0) 2 0 (Hargs 1 0 H0) H2 (Hroomy _))
      as [_ H].
    destruct H as [H _]; [reflexivity|]. apply H.
    intros i Hi. assert (i = 1 \/ i = 2) as [-> | ->] by lia; vm_compute; reflexivity.
  - destruct (C5_sweep_runs roomy fails_at_two (sample_args 1 0) 3 0 (Hargs 1 0 H0) H3
                (Hroomy _)) as [_ H].
    destruct H as [_ H]; [reflexivity|]. apply (H 2 1).
    + lia.
    + intros i Hi. assert (i = 1) as -> by lia. vm_compute. reflexivity.
    + vm_compute. reflexivity.
Defined.

(** ** C6: the error flag within a run, and from one run to the next *)


(** The flag does get set, and then stays: a worker that cannot build its
    context stores 1, and the other worker's whole run leaves it there. *)
Example error_flag_set_and_kept :
  error (exec no_context (replicate 2 0%nat) (start 1 2)) = 1 /\
  error (exec no_context (replicate 2 0%nat ++ replicate 12 1%nat) (start 1 2)) = 1.
Proof. split; reflexivity. Qed.

(** Two runs of one sweep: the run with one thread leaves its counter at
    -1, and the run with two threads counts down from 4 all the same and
    makes its four conversions. *)
Example counters_of_two_runs :
  let env := fun _ : Z => World always_ok round_robin 1 in
  map (fun x => (fst x, counter (snd x), conversions (snd x), error (snd x)))
      (made (execute_on roomy env (sample_args 2 0) 2 2))
  = [(1, -1, 2, 0); (2, -2, 4, 0)].
Proof. vm_compute. reflexivity. Qed.

(** ** C7: throughput and the elapsed time *)

(** C7, as stated, fails: a successful run whose timer reads zero is
    reported with the quotient of the iteration count by zero, and one
    whose timer reads -1 with the quotient by -1; line 120 divides
    whatever the timer reads, where the policy of the specification
    reports the throughput as undefined. *)
Lemma C7_counterexample :
  let zero := fun _ : Z => World always_ok (replicate 12 0%nat) 0 in
  let negative := fun _ : Z => World always_ok (replicate 12 0%nat) (-1) in
  run_coordinator (zero 1) 1 1 = run_ok /\
  Qle (elapsed (zero 1)) 0 /\
  stdout (execute zero (sample_args 1 1) 1 1)
  = [header (sample_args 1 1); blank; threads_line 1; iterations_line 1;
     fps_line (quotient 1 0)] /\
  spec_guarded_fps 1 (elapsed (zero 1)) = undefined_throughput /\
  run_coordinator (negative 1) 1 1 = run_ok /\
  Qle (elapsed (negative 1)) 0 /\
  stdout (execute negative (sample_args 1 1) 1 1)
  = [header (sample_args 1 1); blank; threads_line 1; iterations_line 1;
     fps_line (quotient 1 (-1))] /\
  spec_guarded_fps 1 (elapsed (negative 1)) = undefined_throughput.
Proof.
  cbv zeta. repeat split; try reflexivity; discriminate.
Qed.

(** C7 (amended): for a successful run the throughput line is the quotient
    of the iteration count (the unsigned product of the iterations per
    thread and the thread count) by the elapsed time, whatever the timer
    reads: zero and negative readings are divided by like any other. *)
Theorem C7_division_unguarded (env : Z -> world) (times thread_max n : Z) (fuel : nat) :
  n <= thread_max ->
  run_coordinator (env n) times n = run_ok ->
  exists rest,
    stdout (sweep env times thread_max (S fuel) n)
    = blank :: threads_line n :: iterations_line (to_unsigned (times * n))
      :: fps_line (quotient (to_unsigned (times * n)) (elapsed (env n))) :: rest.
Proof.
  intros Hn Hrun. rewrite sweep_enter by exact Hn. rewrite Hrun.
  cbn [stdout report_block app]. eexists. reflexivity.
Qed.

(** C7 at a timer reading of zero. *)
Lemma C7_witness :
  exists rest,
    stdout (sweep (fun _ : Z => World always_ok (replicate 12 0%nat) 0) 1 1 1 1)
    = blank :: threads_line 1 :: iterations_line 1 :: fps_line (quotient 1 0) :: rest.
Proof.
  apply (C7_division_unguarded (fun _ : Z => World always_ok (replicate 12 0%nat) 0) 1 1 1 0).
  - lia.
  - reflexivity.
Defined.

(** ** C8: release of the context and the frames *)



(** The three ways out of [thread_target] and what the worker did on each:
    the counter exhausted, a construction that failed, a conversion that
    failed. Each ends with the three releases. *)
Example exit_after_exhaustion :
  events_of 0 (history (exec always_ok (replicate 14 0%nat) (start 1 1)))
  = [sws_freeContext; av_frame_free Dst; av_frame_free Src;
     fetch_sub 0; sws_scale 0; fetch_sub 1;
     av_frame_get_buffer Dst 0; av_frame_get_buffer Src 0;
     av_frame_alloc Dst true; av_frame_alloc Src true; sws_getContext true].
Proof. reflexivity. Qed.

Example exit_after_construction_failure :
  events_of 0 (history (exec no_context (replicate 14 0%nat) (start 1 1)))
  = [sws_freeContext; av_frame_free Dst; av_frame_free Src;
     error_store 1; sws_getContext false].
Proof. reflexivity. Qed.

Example exit_after_conversion_failure :
  events_of 0 (history (exec scale_fails (replicate 14 0%nat) (start 1 1)))
  = [sws_freeContext; av_frame_free Dst; av_frame_free Src;
     sws_scale (-1); fetch_sub 1;
     av_frame_get_buffer Dst 0; av_frame_get_buffer Src 0;
     av_frame_alloc Dst true; av_frame_alloc Src true; sws_getContext true].
Proof. reflexivity. Qed.

(** ** C9: no fixed thread count and a hardware concurrency of zero *)

(** C9: with [threads] zero and a hardware concurrency of zero the loop
    body never runs: only the header is printed, no run is started, and
    the process exits with status 0. *)
Theorem C9_zero_concurrency (env : Z -> world) (a : Arguments) (fuel : nat) :
  threads a = 0 ->
  execute env a 0 fuel = Sweep [header a] [] [] returned /\
  main env a 0 fuel = Some 0.
Proof.
  intros Ht.
  assert (He : execute env a 0 fuel = Sweep [header a] [] [] returned).
  { unfold execute. rewrite Ht. cbn [Z.eqb]. rewrite sweep_leave by lia. reflexivity. }
  split; [exact He|]. unfold main. rewrite He. reflexivity.
Qed.

(** C9 for the default conversion, with no fuel at all. *)
Lemma C9_witness :
  execute (fun _ : Z => World always_ok [] 1) (sample_args 100 0) 0 0
  = Sweep [header (sample_args 100 0)] [] [] returned /\
  main (fun _ : Z => World always_ok [] 1) (sample_args 100 0) 0 0 = Some 0.
Proof.
  apply (C9_zero_concurrency (fun _ : Z => World always_ok [] 1) (sample_args 100 0) 0).
  reflexivity.
Defined.

(** ** C10: a counter that starts at or below zero *)

(** C10, as stated, fails: with 1073741824 iterations per thread and 2
    threads the cast yields INT_MIN, which is not positive, and yet a
    conversion call is made: the first worker's decrement wraps the
    counter to INT_MAX and the second worker finds it positive. *)
Lemma C10_counterexample :
  let s := exec always_ok (replicate 6 0%nat ++ replicate 7 1%nat) (start 1073741824 2) in
  counter (start 1073741824 2) = to_int (to_unsigned (1073741824 * 2)) /\
  to_int (to_unsigned (1073741824 * 2)) <= 0 /\
  conversions s = 1.
Proof. vm_compute. repeat split; congruence. Qed.

(** C10 (amended): the counter starts at the unsigned product of the
    iterations per thread and the thread count, cast to int. When that
    value [c0] is not positive and no worker can read the counter after a
    wrap (at most [c0 + 2^31 + 1] threads), no conversion call is ever
    made; and a run whose threads all return with every construction
    successful is reported as successful, its report block showing the
    wrapped unsigned product as the iteration count. *)
Theorem C10_nonpositive_counter (env : Z -> world) (times thread_max n : Z) (fuel : nat) :
  let c0 := to_int (to_unsigned (times * n)) in
  0 <= n -> c0 <= 0 -> unobserved_wrap c0 n ->
  counter (start times n) = c0 /\
  (forall lib sched, conversions (exec lib sched (start times n)) = 0) /\
  (let s := exec (lib (env n)) (schedule (env n)) (start times n) in
   n <= thread_max -> joined s = true ->
   occurrences is_construction_failure (history s) = 0 ->
   run_coordinator (env n) times n = run_ok /\
   exists rest,
     stdout (sweep env times thread_max (S fuel) n)
     = blank :: threads_line n :: iterations_line (to_unsigned (times * n)) :: rest).
Proof.
  intros c0 Hn Hc0 Hw. split; [reflexivity|]. split.
  - intros lib sched.
    destruct (bounded_exec lib sched times n Hn Hw) as (Ha & [Hb _] & _).
    fold c0 in Ha, Hb.
    pose proof (conversions_le_claims _ _ Ha).
    pose proof (occurrences_nonneg is_scale (history (exec lib sched (start times n)))).
    unfold conversions in *. lia.
  - intros s Hmax Hj Hcf.
    assert (Hrun : run_coordinator (env n) times n = run_ok).
    { apply run_coordinator_ok; [exact Hj|].
      apply error_only_from_construction. exact Hcf. }
    split; [exact Hrun|].
    rewrite sweep_enter by exact Hmax. rewrite Hrun. cbn [stdout report_block app].
    eexists. reflexivity.
Qed.

(** C10 at 3000000000 iterations per thread and 1 thread: the counter
    starts at -1294967296, nothing is converted, and the report shows
    3000000000 iterations. *)
Lemma C10_witness :
  let env := fun _ : Z => World always_ok (replicate 10 0%nat) 1 in
  counter (start 3000000000 1) = -1294967296 /\
  (forall lib sched, conversions (exec lib sched (start 3000000000 1)) = 0) /\
  run_coordinator (env 1) 3000000000 1 = run_ok /\
  exists rest,
    stdout (sweep env 3000000000 1 1 1)
    = blank :: threads_line 1 :: iterations_line 3000000000 :: rest.
Proof.
  intros env.
  destruct (C10_nonpositive_counter env 3000000000 1 1 0) as (H1 & H2 & H3).
  - lia.
  - vm_compute. discriminate.
  - vm_compute. discriminate.
  - split; [exact H1|]. split; [exact H2|].
    apply H3; [lia | reflexivity | reflexivity].
Defined.

(** * Further properties of the code *)

(** ** The life of a worker *)

Lemma lifecycle_start times n tid w :
  thread_pool (start times n) !! tid = Some w -> lifecycle [] w.
Proof.
  simpl. intros Hw. apply lookup_replicate in Hw as [-> _]. cbv. auto.
Qed.

Lemma lifetime_construction e evs :
  e <> 0 -> failed_construction e evs -> lifetime e evs.
Proof. intros He Hf. left. auto. Qed.

Lemma lifetime_break u loop :
  u <= 0 -> rounds loop = true -> lifetime 0 (fetch_sub u :: loop ++ constructed).
Proof. intros Hu Hl. right. split; [reflexivity|]. left. eauto. Qed.

Lemma lifetime_scale_failure r u loop :
  r < 0 -> 0 < u -> rounds loop = true ->
  lifetime 0 (sws_scale r :: fetch_sub u :: loop ++ constructed).
Proof. intros Hr Hu Hl. right. split; [reflexivity|]. right. eauto 10. Qed.

Lemma rounds_cons r u loop :
  0 <= r -> 0 < u -> rounds loop = true ->
  rounds (sws_scale r :: fetch_sub u :: loop) = true.
Proof.
  intros Hr Hu Hl. cbn [rounds]. rewrite Hl.
  apply Z.leb_le in Hr. apply Z.ltb_lt in Hu. rewrite Hr, Hu. reflexivity.
Qed.

Lemma lifecycle_step lib tid s s' :
  (forall t w, thread_pool s !! t = Some w -> lifecycle (events_of t (history s)) w) ->
  step lib tid s = Some s' ->
  forall t w, thread_pool s' !! t = Some w -> lifecycle (events_of t (history s')) w.
Proof.
  intros HT H t w1. destruct (Nat.eq_dec t tid) as [->|Hne].
  - apply step_inv in H as (w & w' & c & e & evs & Hw & Ht & Hc & He & Hp & Hh).
    specialize (HT _ _ Hw). rewrite Hp, Hh, events_of_same.
    rewrite list_lookup_insert_eq by (eapply lookup_lt_Some; eauto).
    intros [= <-]. revert HT. generalize (events_of tid (history s)). intros l.
    clear Hw Hp Hh Hc He.
    unfold lifecycle.
    thread_cases Ht;
      cbn [pc sws src_frame dst_frame err at_label app];
      intros HT;
      repeat match goal with
             | Hx : _ /\ _ |- _ => destruct Hx
             | Hx : exists _, _ |- _ => destruct Hx
             end;
      subst;
      repeat match goal with
             | H : (_ <=? _) = true |- _ => apply Z.leb_le in H
             | H : (_ <=? _) = false |- _ => apply Z.leb_gt in H
             | H : (_ <? _) = true |- _ => apply Z.ltb_lt in H
             | H : (_ <? _) = false |- _ => apply Z.ltb_ge in H
             | H : (_ =? _) = true |- _ => apply Z.eqb_eq in H
             end;
      repeat match goal with
             | Hz : ?t = 0 |- context [?t] => rewrite Hz
             end.
    all: try solve [intuition (eauto; congruence)].
    all: try solve [apply lifetime_construction;
                    [ first [lia | apply Z.eqb_neq; assumption]
                    | unfold failed_construction;
                      first [ left; split; [lia|reflexivity]
                            | right; left; split; [lia|reflexivity]
                            | right; right; left; split; [lia|reflexivity]
                            | right; right; right; left; split;
                              [apply Z.eqb_neq; assumption | reflexivity]
                            | right; right; right; right; split;
                              [apply Z.eqb_neq; assumption | reflexivity] ] ] ].
    all: try solve [apply lifetime_break; assumption].
    all: try solve [apply lifetime_scale_failure; assumption].
    + split; [exists []; split; reflexivity | auto].
    + split; [|auto]. eexists (sws_scale _ :: fetch_sub _ :: _).
      split; [|reflexivity]. apply rounds_cons; assumption.
    + exists l. split; [|reflexivity].
      match goal with Hz : ?e = 0, HL : lifetime ?e _ |- _ => rewrite Hz in HL end.
      assumption.
    + exists l. split; [assumption|]. unfold stored.
      match goal with Hb : (_ =? 0) = false |- _ => rewrite Hb end. reflexivity.
  - apply step_inv in H as (w & w' & c & e & evs & Hw & Ht & Hc & He & Hp & Hh).
    rewrite Hp, Hh, list_lookup_insert_ne, events_of_other by congruence.
    apply HT.
Qed.

Lemma lifecycle_exec lib sched times n :
  forall t w, thread_pool (exec lib sched (start times n)) !! t = Some w ->
              lifecycle (events_of t (history (exec lib sched (start times n)))) w.
Proof.
  apply (exec_invariant lib (fun s => forall t w, thread_pool s !! t = Some w ->
                                       lifecycle (events_of t (history s)) w)).
  - intros tid s s' HT H. eapply lifecycle_step; eauto.
  - intros t w. apply lifecycle_start.
Qed.

(** ** Lists of operations *)

Lemma rounds_loop_events loop :
  rounds loop = true -> forallb loop_event loop = true.
Proof.
  assert (H : forall k l, (length l <= k)%nat -> rounds l = true ->
                          forallb loop_event l = true).
  { induction k as [|k IH]; intros l Hk Hl.
    - destruct l; [reflexivity | simpl in Hk; lia].
    - destruct l as [|a [|b l]]; try reflexivity; try (destruct a; discriminate).
      destruct a; try discriminate. destruct b; try discriminate.
      cbn [rounds] in Hl. apply andb_true_iff in Hl as [Hl Hr].
      apply andb_true_iff in Hl as [H1 H2].
      cbn [forallb loop_event]. rewrite H1, H2. cbn [andb].
      apply IH; [simpl in Hk; lia | exact Hr]. }
  apply (H (length loop)). lia.
Qed.

(** A predicate that holds of no loop operation and of no construction
    call holds nowhere in the loop part of a trace. *)
Lemma existsb_loop p loop :
  (forall e, loop_event e = true -> p e = false) ->
  existsb p constructed = false ->
  rounds loop = true ->
  existsb p (loop ++ constructed) = false.
Proof.
  intros Hp Hc Hl. apply rounds_loop_events in Hl.
  rewrite existsb_app, Hc, orb_false_r.
  induction loop as [|a loop IH]; [reflexivity|].
  cbn [forallb] in Hl. apply andb_true_iff in Hl as [Ha Hl].
  cbn [existsb]. rewrite (Hp a Ha), (IH Hl). reflexivity.
Qed.

Lemma existsb_none_split {A} (p : A -> bool) l l1 e l2 :
  existsb p l = false -> l = l1 ++ e :: l2 -> p e = true -> False.
Proof.
  intros Hl -> He. rewrite existsb_app in Hl. cbn [existsb] in Hl.
  rewrite He, orb_true_r in Hl. discriminate.
Qed.

(** When one element only of a list satisfies [p], every way of splitting
    the list at an element satisfying [p] splits it there. *)
Lemma existsb_unique_split {A} (p : A -> bool) (a : list A) x b l1 e l2 :
  existsb p a = false -> existsb p b = false ->
  a ++ x :: b = l1 ++ e :: l2 -> p e = true -> l1 = a.
Proof.
  revert l1. induction a as [|y a IH]; intros l1 Ha Hb Heq He.
  - destruct l1 as [|z l1]; [reflexivity|]. exfalso.
    cbn [app] in Heq. injection Heq as _ Heq.
    exact (existsb_none_split p b l1 e l2 Hb Heq He).
  - cbn [existsb] in Ha. apply orb_false_iff in Ha as [Hy Ha].
    destruct l1 as [|z l1]; cbn [app] in Heq; injection Heq as Hz Heq.
    + congruence.
    + subst z. f_equal. exact (IH l1 Ha Hb Heq He).
Qed.

Lemma failed_construction_quiet p e evs :
  (forall ok, p (sws_getContext ok) = false) ->
  (forall f ok, p (av_frame_alloc f ok) = false) ->
  (forall f r, p (av_frame_get_buffer f r) = false) ->
  failed_construction e evs -> existsb p evs = false.
Proof.
  intros H1 H2 H3 [(_ & ->)|[(_ & ->)|[(_ & ->)|[(_ & ->)|(_ & ->)]]]];
    cbn [existsb]; rewrite ?H1, ?H2, ?H3; reflexivity.
Qed.

Lemma stored_quiet p e :
  (forall v, p (error_store v) = false) -> existsb p (stored e) = false.
Proof.
  intros Hp. unfold stored. destruct (e =? 0); cbn [existsb]; rewrite ?Hp; reflexivity.
Qed.

(** ** X1: what a worker that returned has done *)

(** X1: the operations of a worker that has returned are, from the latest
    back, the three releases of lines 80 to 82, then either (when [err] is
    zero) the way it left the loop, a decrement that read no positive
    value or a failed conversion just after a claim, before that completed
    turns of claim and conversion, before that the five successful
    construction calls; or (when [err] is not zero) the store of [err]
    into the error flag and the construction calls up to the one that
    failed. *)
Theorem X1_worker_lifetime (lib : swscale) (times n : Z) (sched : list nat)
    (tid : nat) (w : worker) :
  let s := exec lib sched (start times n) in
  thread_pool s !! tid = Some w -> pc w = L_exit ->
  (err w = 0 /\
   exists b, left_loop b /\
     events_of tid (history s)
     = sws_freeContext :: av_frame_free Dst :: av_frame_free Src :: b) \/
  (err w <> 0 /\
   exists b, failed_construction (err w) b /\
     events_of tid (history s)
     = sws_freeContext :: av_frame_free Dst :: av_frame_free Src
       :: error_store (err w) :: b).
Proof.
  intros s Hw Hpc.
  pose proof (lifecycle_exec lib sched times n _ _ Hw) as HL.
  unfold lifecycle in HL. rewrite Hpc in HL. destruct HL as (b & Hb & Hev).
  fold s in Hev. unfold stored in Hev.
  destruct Hb as [(He & Hf)|(He & Hl)].
  - right. split; [exact He|]. exists b. split; [exact Hf|].
    apply Z.eqb_neq in He. rewrite He in Hev. exact Hev.
  - left. split; [exact He|]. exists b. split; [exact Hl|].
    rewrite He in Hev. exact Hev.
Qed.

(** X1 for a worker that converted two units and then found the counter
    exhausted. *)
Lemma X1_witness :
  let s := exec always_ok (replicate 14 0%nat) (start 2 1) in
  let w := Worker L_exit false false false 0 in
  thread_pool s !! 0%nat = Some w /\ pc w = L_exit /\
  ((err w = 0 /\
    exists b, left_loop b /\
      events_of 0 (history s)
      = sws_freeContext :: av_frame_free Dst :: av_frame_free Src :: b) \/
   (err w <> 0 /\
    exists b, failed_construction (err w) b /\
      events_of 0 (history s)
      = sws_freeContext :: av_frame_free Dst :: av_frame_free Src
        :: error_store (err w) :: b)).
Proof.
  cbv zeta. split; [reflexivity|]. split; [reflexivity|].
  apply (X1_worker_lifetime always_ok 2 1 (replicate 14 0%nat) 0
           (Worker L_exit false false false 0)); reflexivity.
Defined.

(** ** X2: construction comes first *)

Lemma lifetime_constructed e b :
  lifetime e b ->
  (existsb is_work b = false /\ e <> 0) \/ (exists l, b = l ++ constructed).
Proof.
  intros [(He & Hf)|(He & [(u & loop & _ & _ & ->)|(r & u & loop & _ & _ & _ & ->)])].
  - left. split; [|exact He].
    apply (failed_construction_quiet is_work e b); auto.
  - right. exists (fetch_sub u :: loop). reflexivity.
  - right. exists (sws_scale r :: fetch_sub u :: loop). reflexivity.
Qed.

(** X2: a worker decrements the counter or converts only after its five
    construction calls all succeeded; when it is about to convert it holds
    a live context and both frames, and when it is about to ask for a
    buffer both frames are allocated. *)
Theorem X2_construction_first (lib : swscale) (times n : Z) (sched : list nat)
    (tid : nat) (w : worker) :
  let s := exec lib sched (start times n) in
  thread_pool s !! tid = Some w ->
  (existsb is_work (events_of tid (history s)) = true ->
   exists l, events_of tid (history s) = l ++ constructed) /\
  (pc w = L_scale -> sws w = true /\ src_frame w = true /\ dst_frame w = true) /\
  (pc w = L_buffer_src \/ pc w = L_buffer_dst ->
   src_frame w = true /\ dst_frame w = true).
Proof.
  intros s Hw.
  pose proof (lifecycle_exec lib sched times n _ _ Hw) as HL. fold s in HL.
  unfold lifecycle in HL. split; [|split].
  - intros Hwork.
    assert (Hpre : forall pre b e,
              existsb is_work pre = false -> lifetime e b ->
              events_of tid (history s) = pre ++ stored e ++ b ->
              exists l, events_of tid (history s) = l ++ constructed).
    { intros pre b e Hp Hb Hev.
      destruct (lifetime_constructed e b Hb) as [(Hq & _)|(l & ->)].
      - exfalso. rewrite Hev, !existsb_app, Hp, Hq in Hwork.
        rewrite (stored_quiet is_work e) in Hwork by reflexivity. discriminate.
      - exists (pre ++ stored e ++ l). rewrite Hev, <- !app_assoc. reflexivity. }
    destruct (pc w).
    1-5: exfalso; destruct HL as (Hev & _); rewrite Hev in Hwork; discriminate.
    + destruct HL as ((loop & _ & Hev) & _). eauto.
    + destruct HL as ((u & loop & _ & _ & Hev) & _).
      exists (fetch_sub u :: loop). exact Hev.
    + destruct (lifetime_constructed _ _ HL) as [(Hq & _)|Hc]; [congruence | exact Hc].
    + destruct HL as (b & Hb & Hev). apply (Hpre [] b (err w)); auto.
    + destruct HL as (b & Hb & Hev). apply (Hpre [av_frame_free Src] b (err w)); auto.
    + destruct HL as (b & Hb & Hev).
      apply (Hpre [av_frame_free Dst; av_frame_free Src] b (err w)); auto.
    + destruct HL as (b & Hb & Hev).
      apply (Hpre [sws_freeContext; av_frame_free Dst; av_frame_free Src] b (err w)); auto.
  - intros Hpc. rewrite Hpc in HL. tauto.
  - intros [Hpc|Hpc]; rewrite Hpc in HL; tauto.
Qed.

(** X2 for a worker that holds a claimed unit. *)
Lemma X2_witness :
  let s := exec always_ok (replicate 6 0%nat) (start 2 1) in
  let w := Worker L_scale true true true 0 in
  thread_pool s !! 0%nat = Some w /\
  (exists l, events_of 0 (history s) = l ++ constructed) /\
  (sws w = true /\ src_frame w = true /\ dst_frame w = true).
Proof.
  cbv zeta.
  destruct (X2_construction_first always_ok 2 1 (replicate 6 0%nat) 0
              (Worker L_scale true true true 0)) as (H1 & H2 & _);
    [reflexivity|].
  split; [reflexivity|]. split; [apply H1; reflexivity | apply H2; reflexivity].
Defined.

(** ** X3: no retry *)

(** X3: once a worker has read a non-positive value from the counter, or
    has had a conversion fail, it never decrements the counter and never
    converts again: whatever follows such an operation in its trace is
    neither a decrement nor a conversion. *)
Theorem X3_no_retry (lib : swscale) (times n : Z) (sched : list nat)
    (tid : nat) (w : worker) (later earlier : list event) (e : event) :
  let s := exec lib sched (start times n) in
  thread_pool s !! tid = Some w ->
  events_of tid (history s) = later ++ e :: earlier ->
  ends_loop e = true ->
  existsb is_work later = false.
Proof.
  intros s Hw Hev He.
  pose proof (lifecycle_exec lib sched times n _ _ Hw) as HL. fold s in HL.
  unfold lifecycle in HL.
  assert (Hloop : forall loop, rounds loop = true ->
                    existsb ends_loop (loop ++ constructed) = false).
  { intros loop Hl. apply existsb_loop; [|reflexivity|exact Hl].
    intros [] H; cbn [loop_event ends_loop] in *; try discriminate.
    - apply Z.ltb_lt in H. apply Z.leb_gt. lia.
    - apply Z.leb_le in H. apply Z.ltb_ge. lia. }
  assert (Hnone : forall l, existsb ends_loop l = false ->
                    events_of tid (history s) = l -> False).
  { intros l Hl Hl'. rewrite Hl' in Hev.
    exact (existsb_none_split ends_loop l later e earlier Hl Hev He). }
  assert (Hpre : forall pre b v,
            existsb is_work pre = false -> existsb ends_loop pre = false ->
            lifetime v b ->
            events_of tid (history s) = pre ++ b ->
            existsb is_work later = false).
  { intros pre b v Hs1 Hs2 Hb Hev'.
    destruct Hb as [(_ & Hf)|(_ & [(u & loop & Hu & Hl & ->)|(r & u & loop & Hr & Hu & Hl & ->)])].
    - exfalso. apply (Hnone (pre ++ b)); [|exact Hev'].
      rewrite existsb_app, Hs2.
      apply (failed_construction_quiet ends_loop v b); auto.
    - rewrite Hev' in Hev.
      rewrite (existsb_unique_split ends_loop _ _ _ _ _ _ Hs2 (Hloop loop Hl) Hev He).
      exact Hs1.
    - rewrite Hev' in Hev.
      assert (Htail : existsb ends_loop (fetch_sub u :: loop ++ constructed) = false).
      { cbn [existsb ends_loop]. rewrite (Hloop loop Hl).
        apply Z.leb_gt in Hu. rewrite Hu. reflexivity. }
      rewrite (existsb_unique_split ends_loop _ _ _ _ _ _ Hs2 Htail Hev He).
      exact Hs1. }
  assert (Hst1 : forall pre v, existsb is_work pre = false ->
                   existsb is_work (pre ++ stored v) = false)
    by (intros pre v Hp; rewrite existsb_app, Hp, (stored_quiet is_work v); reflexivity).
  assert (Hst2 : forall pre v, existsb ends_loop pre = false ->
                   existsb ends_loop (pre ++ stored v) = false)
    by (intros pre v Hp; rewrite existsb_app, Hp, (stored_quiet ends_loop v); reflexivity).
  destruct (pc w).
  1-5: exfalso; destruct HL as (Hev' & _); eapply Hnone; [|exact Hev']; reflexivity.
  - exfalso. destruct HL as ((loop & Hl & Hev') & _).
    eapply Hnone; [|exact Hev']. apply Hloop. exact Hl.
  - exfalso. destruct HL as ((u & loop & Hu & Hl & Hev') & _).
    eapply Hnone; [|exact Hev']. cbn [existsb ends_loop]. rewrite (Hloop loop Hl).
    apply Z.leb_gt in Hu. rewrite Hu. reflexivity.
  - apply (Hpre [] (events_of tid (history s)) (err w)); auto.
  - destruct HL as (b & Hb & Hev').
    apply (Hpre ([] ++ stored (err w)) b (err w)); auto.
  - destruct HL as (b & Hb & Hev').
    apply (Hpre ([av_frame_free Src] ++ stored (err w)) b (err w)); auto.
  - destruct HL as (b & Hb & Hev').
    apply (Hpre ([av_frame_free Dst; av_frame_free Src] ++ stored (err w)) b (err w)); auto.
  - destruct HL as (b & Hb & Hev').
    apply (Hpre ([sws_freeContext; av_frame_free Dst; av_frame_free Src]
                   ++ stored (err w)) b (err w)); auto.
Qed.

(** X3 for a worker whose second conversion failed. *)
Lemma X3_witness :
  let lib := Build_swscale (fun _ _ => true) (fun _ _ _ => true) (fun _ _ _ => 0)
               (fun _ h => if occurrences is_scale h =? 0 then 0 else -22) in
  let s := exec lib (replicate 14 0%nat) (start 5 1) in
  events_of 0 (history s)
  = [sws_freeContext; av_frame_free Dst; av_frame_free Src]
    ++ sws_scale (-22)
    :: [fetch_sub 4; sws_scale 0; fetch_sub 5] ++ constructed /\
  existsb is_work [sws_freeContext; av_frame_free Dst; av_frame_free Src] = false.
Proof.
  cbv zeta. split; [reflexivity|].
  apply (X3_no_retry
           (Build_swscale (fun _ _ => true) (fun _ _ _ => true) (fun _ _ _ => 0)
              (fun _ h => if occurrences is_scale h =? 0 then 0 else -22))
           5 1 (replicate 14 0%nat) 0 (Worker L_exit false false false 0)
           [sws_freeContext; av_frame_free Dst; av_frame_free Src]
           ([fetch_sub 4; sws_scale 0; fetch_sub 5] ++ constructed)
           (sws_scale (-22))); reflexivity.
Defined.

(** ** X4: each resource is released once *)

Lemma lifetime_quiet p e b :
  (forall ok, p (sws_getContext ok) = false) ->
  (forall f ok, p (av_frame_alloc f ok) = false) ->
  (forall f r, p (av_frame_get_buffer f r) = false) ->
  (forall u, p (fetch_sub u) = false) ->
  (forall r, p (sws_scale r) = false) ->
  lifetime e b -> existsb p b = false.
Proof.
  intros H1 H2 H3 H4 H5 Hb.
  assert (Hloop : forall loop, rounds loop = true ->
                    existsb p (loop ++ constructed) = false).
  { intros loop Hl. apply existsb_loop; [| |exact Hl].
    - intros [] H; cbn [loop_event] in H; try discriminate; auto.
    - cbn [constructed existsb]. rewrite !H1, !H2, !H3. reflexivity. }
  destruct Hb as [(_ & Hf)|(_ & [(u & loop & _ & Hl & ->)|(r & u & loop & _ & _ & Hl & ->)])].
  - apply (failed_construction_quiet p e b); auto.
  - cbn [existsb]. rewrite H4, (Hloop loop Hl). reflexivity.
  - cbn [existsb]. rewrite H4, H5, (Hloop loop Hl). reflexivity.
Qed.

Lemma filter_none {A} (p : A -> bool) l :
  existsb p l = false -> List.filter p l = [].
Proof.
  induction l as [|x l IH]; [reflexivity|]. cbn [existsb List.filter].
  intros H. apply orb_false_iff in H as [Hx Hl]. rewrite Hx. exact (IH Hl).
Qed.

(** X4: the releases a worker has made so far are fixed by its program
    point: none before line 80, then the source frame, then the
    destination frame, then the context; so no resource is ever released
    twice, and a worker that has returned has made each of the three
    release calls exactly once. *)
Theorem X4_released_once (lib : swscale) (times n : Z) (sched : list nat)
    (tid : nat) (w : worker) :
  let s := exec lib sched (start times n) in
  thread_pool s !! tid = Some w ->
  List.filter is_release (events_of tid (history s))
  = match pc w with
    | L_free_dst => [av_frame_free Src]
    | L_free_ctx => [av_frame_free Dst; av_frame_free Src]
    | L_exit => [sws_freeContext; av_frame_free Dst; av_frame_free Src]
    | _ => []
    end.
Proof.
  intros s Hw.
  pose proof (lifecycle_exec lib sched times n _ _ Hw) as HL. fold s in HL.
  unfold lifecycle in HL.
  assert (Hq : forall e b, lifetime e b -> List.filter is_release (stored e ++ b) = []).
  { intros e b Hb. apply filter_none. rewrite existsb_app.
    rewrite (stored_quiet is_release e) by reflexivity.
    apply (lifetime_quiet is_release e b); auto. }
  assert (Hloop : forall loop, rounds loop = true ->
                    List.filter is_release (loop ++ constructed) = []).
  { intros loop Hl. apply filter_none. apply existsb_loop; [|reflexivity|exact Hl].
    intros [] H; cbn [loop_event] in H; try discriminate; reflexivity. }
  destruct (pc w).
  1-5: destruct HL as (-> & _); reflexivity.
  - destruct HL as ((loop & Hl & ->) & _). apply Hloop, Hl.
  - destruct HL as ((u & loop & _ & Hl & ->) & _).
    cbn [List.filter is_release]. apply Hloop, Hl.
  - apply filter_none. apply (lifetime_quiet is_release (err w)); auto.
  - destruct HL as (b & Hb & ->). apply Hq, Hb.
  - destruct HL as (b & Hb & ->). cbn [List.filter is_release].
    rewrite (Hq _ _ Hb). reflexivity.
  - destruct HL as (b & Hb & ->). cbn [List.filter is_release].
    rewrite (Hq _ _ Hb). reflexivity.
  - destruct HL as (b & Hb & ->). cbn [List.filter is_release].
    rewrite (Hq _ _ Hb). reflexivity.
Qed.

(** X4 for a worker that could not build its context and has returned. *)
Lemma X4_witness :
  let s := exec no_context (replicate 6 0%nat) (start 1 1) in
  thread_pool s !! 0%nat = Some (Worker L_exit false false false 1) /\
  List.filter is_release (events_of 0 (history s))
  = [sws_freeContext; av_frame_free Dst; av_frame_free Src].
Proof.
  cbv zeta. split; [reflexivity|].
  apply (X4_released_once no_context 1 1 (replicate 6 0%nat) 0
           (Worker L_exit false false false 1)). reflexivity.
Defined.

(** ** X5: what decides the verdict of a run *)

(** Only threads of the pool perform operations. *)
Lemma no_ghost_events lib sched times n t :
  thread_pool (exec lib sched (start times n)) !! t = None ->
  events_of t (history (exec lib sched (start times n))) = [].
Proof.
  apply (exec_invariant lib (fun s => thread_pool s !! t = None ->
                                      events_of t (history s) = []));
    [|reflexivity].
  intros tid s s' IH H.
  apply step_inv in H as (w & w' & c & e & evs & Hw & Ht & Hc & He & Hp & Hh).
  rewrite Hp, Hh. intros Hnone.
  destruct (Nat.eq_dec t tid) as [->|Hne].
  - rewrite list_lookup_insert_eq in Hnone by (eapply lookup_lt_Some; eauto).
    discriminate.
  - rewrite list_lookup_insert_ne in Hnone by congruence.
    rewrite events_of_other by congruence. exact (IH Hnone).
Qed.

Lemma occurrences_positive p h :
  0 < occurrences p h -> exists t, existsb p (events_of t h) = true.
Proof.
  induction h as [|[t e] h IH]; cbn [occurrences]; [lia|].
  destruct (p e) eqn:Hp.
  - intros _. exists t. cbn [events_of]. rewrite Nat.eqb_refl. cbn [existsb].
    rewrite Hp. reflexivity.
  - intros H. destruct (IH ltac:(lia)) as [t' Ht']. exists t'.
    cbn [events_of]. destruct (Nat.eqb t t'); [|exact Ht'].
    cbn [existsb]. rewrite Ht'. apply orb_true_r.
Qed.

(** X5: once all threads have returned, the error flag is set exactly when
    the construction of some worker failed, and the run is reported as
    successful exactly when every construction succeeded: the outcome of
    the conversion calls has no part in the verdict. *)
Theorem X5_verdict (w : world) (times n : Z) :
  let s := exec (lib w) (schedule w) (start times n) in
  joined s = true ->
  (error s <> 0 <-> 0 < occurrences is_construction_failure (history s)) /\
  (run_coordinator w times n = run_ok
   <-> occurrences is_construction_failure (history s) = 0).
Proof.
  intros s Hj.
  pose proof (occurrences_nonneg is_construction_failure (history s)) as Hnn.
  assert (Hiff : error s <> 0 <-> 0 < occurrences is_construction_failure (history s)).
  { split.
    - intros He.
      destruct (Z.eq_dec (occurrences is_construction_failure (history s)) 0) as [Hz|Hz];
        [|lia].
      exfalso. apply He. apply (sound_exec (lib w) (schedule w) times n). exact Hz.
    - intros Hpos. destruct (occurrences_positive _ _ Hpos) as [t Ht].
      destruct (thread_pool s !! t) as [w0|] eqn:Hw0.
      + pose proof (joined_lookup _ _ _ Hj Hw0) as Hpc.
        destruct (sound_exec (lib w) (schedule w) times n) as [HT _].
        specialize (HT _ _ Hw0). unfold thread_inv in HT. rewrite Hpc in HT.
        destruct HT as (HT & _). destruct (HT Ht) as (He & _). exact He.
      + pose proof (no_ghost_events (lib w) (schedule w) times n t Hw0) as Hg.
        fold s in Hg. rewrite Hg in Ht. discriminate. }
  split; [exact Hiff|].
  unfold run_coordinator. fold s. rewrite Hj.
  destruct (error s =? 0) eqn:He.
  - apply Z.eqb_eq in He. split; [|reflexivity]. intros _.
    destruct (Z.eq_dec (occurrences is_construction_failure (history s)) 0) as [Hz|Hz];
      [exact Hz|].
    exfalso. apply (proj2 Hiff); [lia | exact He].
  - apply Z.eqb_neq in He. split; [discriminate|].
    intros Hz. apply Hiff in He. lia.
Qed.

(** X5 for a run whose only conversion fails and whose constructions
    succeed: the verdict is success. *)
Lemma X5_witness :
  let w := World scale_fails (replicate 11 0%nat) 1 in
  let s := exec (lib w) (schedule w) (start 1 1) in
  joined s = true /\
  occurrences is_failure (history s) = 1 /\
  (error s <> 0 <-> 0 < occurrences is_construction_failure (history s)) /\
  (run_coordinator w 1 1 = run_ok
   <-> occurrences is_construction_failure (history s) = 0).
Proof.
  cbv zeta. split; [reflexivity|]. split; [reflexivity|].
  apply (X5_verdict (World scale_fails (replicate 11 0%nat) 1) 1 1). reflexivity.
Defined.

(** ** X6: the value of the error flag *)

(** When the flag is set, some worker past line 78 has its value in
    [err]. *)
Lemma flag_owner lib sched times n :
  let s := exec lib sched (start times n) in
  error s = 0 \/
  exists t w, thread_pool s !! t = Some w /\ past_fail w = true /\ err w = error s.
Proof.
  cbv zeta.
  apply (exec_invariant lib (fun s =>
           error s = 0 \/
           exists t w, thread_pool s !! t = Some w /\ past_fail w = true
                       /\ err w = error s)); [|left; reflexivity].
  intros tid s s' IH H.
  apply step_inv in H as (w & w' & c & e & evs & Hw & Ht & Hc & He & Hp & Hh).
  assert (Hnew : thread_pool s' !! tid = Some w')
    by (rewrite Hp; apply list_lookup_insert_eq; eapply lookup_lt_Some; eauto).
  assert (Hother : forall t0 w0, t0 <> tid -> thread_pool s !! t0 = Some w0 ->
                                 thread_pool s' !! t0 = Some w0)
    by (intros t0 w0 Hne Hl; rewrite Hp, list_lookup_insert_ne by congruence; exact Hl).
  assert (Hcases : (e = error s /\ (past_fail w = true -> past_fail w' = true /\ err w' = err w))
                   \/ (past_fail w' = true /\ err w' = e)).
  { clear IH Hnew Hother Hp Hh Hc He Hw.
    thread_cases Ht; cbn [past_fail pc err at_label];
      first [ left; split; [reflexivity | intros; first [discriminate | auto]]
            | right; split; reflexivity ]. }
  rewrite He. destruct Hcases as [(-> & Hkeep)|(Hpf & Herr)].
  - destruct IH as [Hz|(t0 & w0 & Hl0 & Hp0 & He0)]; [left; exact Hz|]. right.
    destruct (Nat.eq_dec t0 tid) as [->|Hne].
    + rewrite Hw in Hl0. injection Hl0 as <-.
      destruct (Hkeep Hp0) as [Hp' He']. exists tid, w'.
      split; [exact Hnew|]. split; [exact Hp'|]. congruence.
    + exists t0, w0. auto.
  - right. exists tid, w'. auto.
Qed.

(** X6: a non-zero error flag holds the value of [err] that some worker
    stored right after its construction failed: 1 when the context or a
    frame could not be made, the result of [av_frame_get_buffer] when a
    buffer could not. *)
Theorem X6_flag_value (lib : swscale) (times n : Z) (sched : list nat) :
  let s := exec lib sched (start times n) in
  error s <> 0 ->
  exists t later b,
    events_of t (history s) = later ++ error_store (error s) :: b /\
    failed_construction (error s) b /\
    (error s = 1 \/ exists f rest, b = av_frame_get_buffer f (error s) :: rest).
Proof.
  intros s He.
  destruct (flag_owner lib sched times n) as [Hz|(t & w & Hw & Hpf & Herr)];
    [contradiction|]. fold s in Hw, Herr.
  pose proof (lifecycle_exec lib sched times n _ _ Hw) as HL. fold s in HL.
  unfold lifecycle in HL. unfold past_fail in Hpf. rewrite Herr in HL.
  assert (Hst : stored (error s) = [error_store (error s)])
    by (unfold stored; apply Z.eqb_neq in He; rewrite He; reflexivity).
  assert (Hb : forall b, lifetime (error s) b ->
                 failed_construction (error s) b /\
                 (error s = 1 \/ exists f rest, b = av_frame_get_buffer f (error s) :: rest)).
  { intros b [(_ & Hf)|(Hz & _)]; [|contradiction]. split; [exact Hf|].
    destruct Hf as [(H1 & _)|[(H1 & _)|[(H1 & _)|[(_ & ->)|(_ & ->)]]]]; eauto. }
  exists t.
  destruct (pc w); try discriminate; destruct HL as (b & Hlife & Hev);
    rewrite Hst in Hev; destruct (Hb b Hlife) as [Hf Hv].
  - exists [], b. auto.
  - exists [av_frame_free Src], b. auto.
  - exists [av_frame_free Dst; av_frame_free Src], b. auto.
  - exists [sws_freeContext; av_frame_free Dst; av_frame_free Src], b. auto.
Qed.

(** X6 for a worker whose destination buffer could not be allocated, with
    status -12. *)
Lemma X6_witness :
  let lib := Build_swscale (fun _ _ => true) (fun _ _ _ => true)
               (fun _ f _ => match f with Src => 0 | Dst => -12 end) (fun _ _ => 0) in
  let s := exec lib (replicate 9 0%nat) (start 1 1) in
  error s = -12 /\
  exists t later b,
    events_of t (history s) = later ++ error_store (error s) :: b /\
    failed_construction (error s) b /\
    (error s = 1 \/ exists f rest, b = av_frame_get_buffer f (error s) :: rest).
Proof.
  cbv zeta. split; [reflexivity|].
  apply (X6_flag_value
           (Build_swscale (fun _ _ => true) (fun _ _ _ => true)
              (fun _ f _ => match f with Src => 0 | Dst => -12 end) (fun _ _ => 0))
           1 1 (replicate 9 0%nat)).
  vm_compute. discriminate.
Defined.

(** ** X7: how many calls a run makes *)

Lemma budget_step c0 lib tid s s' :
  step lib tid s = Some s' ->
  calls s' + budget c0 s' <= calls s + budget c0 s /\
  (occurrences is_failure (history s') = occurrences is_failure (history s) ->
   calls s' + budget c0 s' = calls s + budget c0 s).
Proof.
  intros H. unfold budget, calls.
  step_cases H; cbn [remaining pc err at_label map app length]; zbool;
    repeat match goal with |- context [?x =? 0] => destruct (x =? 0) end; lia.
Qed.

Lemma failures_step lib tid s s' :
  step lib tid s = Some s' ->
  occurrences is_failure (history s) <= occurrences is_failure (history s').
Proof. intros H. step_cases H; zbool; lia. Qed.

Lemma failures_exec lib sched s :
  occurrences is_failure (history s)
  <= occurrences is_failure (history (exec lib sched s)).
Proof.
  revert s. induction sched as [|tid rest IH]; intros s; cbn [exec]; [lia|].
  destruct (step lib tid s) as [s'|] eqn:E; [|apply IH].
  pose proof (failures_step _ _ _ _ E). specialize (IH s'). lia.
Qed.

Lemma calls_budget c0 lib sched :
  forall s,
    calls (exec lib sched s) + budget c0 (exec lib sched s) <= calls s + budget c0 s /\
    (occurrences is_failure (history (exec lib sched s))
     = occurrences is_failure (history s) ->
     calls (exec lib sched s) + budget c0 (exec lib sched s) = calls s + budget c0 s).
Proof.
  induction sched as [|tid rest IH]; intros s; cbn [exec]; [lia|].
  destruct (step lib tid s) as [s'|] eqn:E; [|apply IH].
  destruct (budget_step c0 _ _ _ _ E) as [Hle Heq].
  destruct (IH s') as [IHle IHeq].
  pose proof (failures_step _ _ _ _ E).
  pose proof (failures_exec lib rest s').
  split; [lia|]. intros Hf.
  specialize (IHeq ltac:(lia)). specialize (Heq ltac:(lia)). lia.
Qed.

(** X7: in a run where no worker reads the counter after a wrap, whatever
    the schedule and whatever the library answers, the workers make at
    most 9 library calls and atomic accesses each (five to construct, the
    decrement that ends the loop or the store of the error, three to
    release) plus 2 for each unit of the initial counter value (its claim
    and its conversion); and a run of at least one thread that has ended
    without any failed call has made exactly that many. *)
Theorem X7_calls_bounded (lib : swscale) (times n : Z) (sched : list nat) :
  let c0 := to_int (to_unsigned (times * n)) in
  let s := exec lib sched (start times n) in
  0 <= n -> unobserved_wrap c0 n ->
  Z.of_nat (length (history s)) <= 9 * n + 2 * Z.max c0 0 /\
  (1 <= n -> joined s = true -> occurrences is_failure (history s) = 0 ->
   Z.of_nat (length (history s)) = 9 * n + 2 * Z.max c0 0).
Proof.
  intros c0 s Hn Hw. fold (calls s).
  destruct (bounded_exec lib sched times n Hn Hw) as (Ha & [Hb1 Hb2] & Hl).
  fold s c0 in Ha, Hb1, Hb2, Hl.
  destruct (calls_budget c0 lib sched (start times n)) as [Hle Heq].
  fold s in Hle, Heq.
  assert (Hstart : calls (start times n) + budget c0 (start times n)
                   = 9 * n + 2 * Z.max c0 0).
  { unfold budget, calls, start. cbn [thread_pool history occurrences length].
    rewrite tally_replicate. change (remaining spawned) with 9. lia. }
  pose proof (tally_nonneg remaining (thread_pool s)) as Hnn.
  assert (0 <= tally remaining (thread_pool s))
    by (apply Hnn; intros w; unfold remaining; destruct (pc w);
        try destruct (err w =? 0); lia).
  split.
  - unfold budget in Hle at 1. lia.
  - intros Hn1 Hj Hf.
    assert (Hfin : budget c0 s = 0).
    { unfold budget.
      rewrite (joined_tally remaining s) by
          (exact Hj || (intros w Hx; unfold exited, remaining in *;
                        destruct (pc w); congruence)).
      pose proof (breaks_joined _ _ Ha Hj Hf) as Hbr.
      rewrite Hl, Z2Nat.id in Hbr by lia.
      pose proof (occurrences_nonneg is_claim (history s)). lia. }
    rewrite <- Hstart, <- Heq; [lia|]. rewrite Hf. reflexivity.
Qed.

(** X7 for two threads and three iterations each: 9 * 2 + 2 * 6 = 30
    calls. *)
Lemma X7_witness :
  let s := exec always_ok (two_in_turn 30) (start 3 2) in
  Z.of_nat (length (history s)) <= 9 * 2 + 2 * Z.max 6 0 /\
  Z.of_nat (length (history s)) = 9 * 2 + 2 * Z.max 6 0.
Proof.
  destruct (X7_calls_bounded always_ok 3 2 (two_in_turn 30)) as [H1 H2].
  - lia.
  - vm_compute. discriminate.
  - split; [exact H1|]. apply H2; [lia | reflexivity | reflexivity].
Defined.

(** ** X8: the value of the counter *)

(** X8: when no decrement can wrap, the counter is at every moment its
    initial value less the number of decrements made so far; it never
    rises above its initial value and never falls further than the number
    of threads below zero (or below a negative initial value); and in a
    run of at least one thread that has ended without any failed call,
    with a non-negative initial value, it stands at minus the number of
    threads. *)
Theorem X8_counter_value (lib : swscale) (times n : Z) (sched : list nat) :
  let c0 := to_int (to_unsigned (times * n)) in
  let s := exec lib sched (start times n) in
  0 <= n -> wrap_free c0 n ->
  counter s = c0 - occurrences is_fetch (history s) /\
  Z.min c0 0 - n <= counter s <= c0 /\
  (1 <= n -> 0 <= c0 -> joined s = true -> occurrences is_failure (history s) = 0 ->
   counter s = - n).
Proof.
  intros c0 s Hn Hw.
  destruct (bounded_exec lib sched times n Hn (wrap_free_unobserved _ _ Hw))
    as ([H1 H2 H3] & [Hb1 Hb2] & Hl).
  fold s c0 in H1, H2, H3, Hb1, Hb2, Hl.
  pose proof (to_int_range (to_unsigned (times * n))) as Hc0. fold c0 in Hc0.
  pose proof (tally_nonneg in_flight (thread_pool s) in_flight_nonneg).
  pose proof (occurrences_nonneg is_claim (history s)).
  pose proof (occurrences_nonneg is_break (history s)).
  pose proof (occurrences_nonneg is_failure (history s)).
  rewrite Hl, Z2Nat.id in H3 by lia.
  assert (Hexact : counter s = c0 - occurrences is_fetch (history s)).
  { rewrite H1. apply to_int_id. rewrite occurrences_fetch.
    revert Hc0 Hw. unfold int_range, wrap_free, INT_MIN, INT_MAX. lia. }
  split; [exact Hexact|]. rewrite occurrences_fetch in Hexact. split; [lia|].
  intros Hn1 Hpos Hj Hf.
  rewrite (joined_tally in_flight s exited_not_in_flight Hj) in H3. lia.
Qed.

(** X8 for two threads and three iterations each: the counter ends at
    -2. *)
Lemma X8_witness :
  let s := exec always_ok (two_in_turn 30) (start 3 2) in
  counter s = 6 - occurrences is_fetch (history s) /\
  Z.min 6 0 - 2 <= counter s <= 6 /\
  counter s = - 2.
Proof.
  destruct (X8_counter_value always_ok 3 2 (two_in_turn 30)) as (H1 & H2 & H3).
  - lia.
  - vm_compute. discriminate.
  - split; [exact H1|]. split; [exact H2|].
    apply H3; [lia | vm_compute; discriminate | reflexivity | reflexivity].
Defined.

(** ** X9: every unit is claimed once, in descending order *)

Lemma units_descend_step c0 lib tid s s' :
  int_range c0 ->
  unobserved_wrap c0 (Z.of_nat (length (thread_pool s))) ->
  accounts c0 s -> claims_bounded c0 s ->
  snd <$> claimed_units (history s)
  = seqZ (c0 - occurrences is_claim (history s) + 1) (occurrences is_claim (history s)) ->
  step lib tid s = Some s' ->
  snd <$> claimed_units (history s')
  = seqZ (c0 - occurrences is_claim (history s') + 1) (occurrences is_claim (history s')).
Proof.
  intros Hc0 Hn Ha Hb Hu H.
  pose proof (in_flight_reads c0 s tid) as Hread.
  pose proof (occurrences_nonneg is_claim (history s)) as Hk.
  pose proof (occurrences_nonneg is_break (history s)) as Hbr.
  destruct Hb as [Hb1 Hb2].
  step_cases H; zbool; rewrite ?Z.add_0_l; try exact Hu; try lia.
  specialize (Hread _ Hc0 Hn Ha (conj Hb1 Hb2) Hw eq_refl).
  rewrite fmap_cons, Hu. change ((tid, counter s).2) with (counter s).
  rewrite (seqZ_cons (c0 - (1 + occurrences is_claim (history s)) + 1)) by lia.
  f_equal; [lia|]. f_equal; lia.
Qed.

(** X9: in a run where no worker reads the counter after a wrap, the
    units are claimed in descending order without a gap, starting from
    the initial value: after k claims the units claimed are the k highest.
    Once all threads have returned and at least one of them found the
    counter exhausted, every unit from 1 to the initial value has been
    claimed exactly once and the run has made one conversion call for
    each, even when other workers failed. *)
Theorem X9_units_claimed_once (lib : swscale) (times n : Z) (sched : list nat) :
  let c0 := to_int (to_unsigned (times * n)) in
  let s := exec lib sched (start times n) in
  0 <= n -> unobserved_wrap c0 n ->
  snd <$> claimed_units (history s)
  = seqZ (c0 - occurrences is_claim (history s) + 1) (occurrences is_claim (history s)) /\
  (0 <= c0 -> joined s = true -> 1 <= occurrences is_break (history s) ->
   snd <$> claimed_units (history s) = seqZ 1 c0 /\ conversions s = c0).
Proof.
  intros c0 s Hn Hw.
  assert (Hinv : accounts c0 s /\ claims_bounded c0 s
                 /\ length (thread_pool s) = Z.to_nat n
                 /\ snd <$> claimed_units (history s)
                    = seqZ (c0 - occurrences is_claim (history s) + 1)
                           (occurrences is_claim (history s))).
  { unfold s.
    apply (exec_invariant lib (fun s =>
             accounts c0 s /\ claims_bounded c0 s
             /\ length (thread_pool s) = Z.to_nat n
             /\ snd <$> claimed_units (history s)
                = seqZ (c0 - occurrences is_claim (history s) + 1)
                       (occurrences is_claim (history s)))).
    - intros tid s1 s2 (Ha & Hb & Hl & Hu) H.
      assert (Hw1 : unobserved_wrap c0 (Z.of_nat (length (thread_pool s1))))
        by (rewrite Hl, Z2Nat.id by lia; exact Hw).
      split; [eapply accounts_step; eauto|].
      split; [eapply claims_bounded_step; eauto using to_int_range|].
      split; [rewrite (step_length _ _ _ _ H); exact Hl|].
      eapply units_descend_step; eauto using to_int_range.
    - split; [apply accounts_start; exact Hn|].
      split; [apply claims_bounded_start|].
      split; [apply start_length | reflexivity]. }
  destruct Hinv as (Ha & [Hb1 Hb2] & Hl & Hu). split; [exact Hu|].
  intros Hpos Hj Hbr.
  assert (Hk : occurrences is_claim (history s) = c0) by (specialize (Hb2 Hbr); lia).
  split.
  - rewrite Hu, Hk. f_equal. lia.
  - rewrite (conversions_joined _ _ Ha Hj). exact Hk.
Qed.

(** X9 for two threads and two iterations each, the first of which cannot
    allocate its frames: the second claims and converts all four units. *)
Lemma X9_witness :
  let s := exec first_cannot_alloc round_robin (start 2 2) in
  snd <$> claimed_units (history s)
  = seqZ (4 - occurrences is_claim (history s) + 1) (occurrences is_claim (history s)) /\
  snd <$> claimed_units (history s) = seqZ 1 4 /\ conversions s = 4.
Proof.
  destruct (X9_units_claimed_once first_cannot_alloc 2 2 round_robin) as (H1 & H2).
  - lia.
  - vm_compute. discriminate.
  - split; [exact H1|].
    apply H2; [vm_compute; discriminate | reflexivity | vm_compute; discriminate].
Defined.

(** ** X10: what a sweep prints *)

Lemma run_failed_nonzero w times n e :
  run_coordinator w times n = run_failed e -> e <> 0.
Proof.
  unfold run_coordinator.
  destruct (joined _); [|discriminate].
  destruct (error _ =? 0) eqn:He; [discriminate|].
  intros [= <-]. apply Z.eqb_neq. exact He.
Qed.

Lemma sweep_on_report p env times thread_max fuel :
  forall lo,
    let r := sweep_on p env times thread_max fuel lo in
    cout r = blocks env times (reported r) /\
    ((leaving r = as_status thrown \/ leaving r = as_status blocked) -> made r <> []) /\
    match leaving r with
    | as_status thrown =>
        exists e n s l,
          e <> 0 /\ cerr r = [failure e] /\ made r = l ++ [(n, s)] /\
          run_coordinator (env n) times n = run_failed e
    | as_status _ => cerr r = []
    | system_error n => cerr r = [] /\ emplace_all p n = Some 0
    | terminate n nn => cerr r = [] /\ nn <> 0 /\ emplace_all p n = Some nn
    end.
Proof.
  induction fuel as [|fuel IH]; intros lo; cbv zeta; cbn [sweep_on];
    destruct (lo <=? thread_max);
    try (unfold reported; cbn [cout cerr made leaving map blocks];
         split; [reflexivity|]; split; [intros [H|H]; discriminate H | reflexivity]).
  destruct (emplace_all p lo) as [nn|] eqn:Hemp.
  { unfold reported. destruct (nn =? 0) eqn:E; cbn [cout cerr made leaving map blocks];
      (split; [reflexivity|]; split; [intros [H|H]; discriminate H|]).
    - apply Z.eqb_eq in E. subst nn. split; [reflexivity | exact Hemp].
    - apply Z.eqb_neq in E. split; [reflexivity|]. split; [exact E | exact Hemp]. }
  cbv zeta. destruct (run_coordinator (env lo) times lo) eqn:Hrun.
  - specialize (IH (to_unsigned (lo + 1))). cbv zeta in IH.
    destruct IH as (Hout & Hne & Herr).
    set (r' := sweep_on p env times thread_max fuel (to_unsigned (lo + 1))) in *.
    unfold reported in *. cbn [cout cerr made leaving map fst].
    split; [|split; [discriminate|]].
    + rewrite Hout.
      destruct (leaving r') as [[]| |] eqn:Hs; cbn [blocks]; try reflexivity.
      * destruct (made r') eqn:Hr; [exfalso; apply Hne; auto|]. reflexivity.
      * destruct (made r') eqn:Hr; [exfalso; apply Hne; auto|]. reflexivity.
    + destruct (leaving r') as [[]| |]; try exact Herr.
      destruct Herr as (e & n & s & l & He0 & He & Hm & Hr).
      exists e, n, s, ((lo, run_state (env lo) times lo) :: l).
      rewrite Hm. auto.
  - pose proof (run_failed_nonzero _ _ _ _ Hrun) as He0.
    unfold reported. cbn [cout cerr made leaving map fst removelast blocks].
    split; [reflexivity|]. split; [discriminate|].
    exists e, lo, (run_state (env lo) times lo), []. auto.
  - unfold reported. cbn [cout cerr made leaving map fst removelast blocks].
    split; [reflexivity|]. split; [discriminate|]. reflexivity.
Qed.

(** X10: on any platform, whatever the arguments, the worlds met and the
    number of loop iterations followed, [execute] has written to standard
    output the header and then one report block for each run it made, in
    the order of the runs, except for a last run that failed or never
    joined; every run with a block ended with all threads returned and the
    flag at zero. When the loop ended nothing is on standard error and
    [main] returns 0. When the last run ended with the flag set, [execute]
    wrote one failure line, showing the value of that flag, which is not
    0; [main] added its own line and returns 1. When the first thread of
    a run could not be started, standard error holds the line of [main]
    only and [main] returns 1. When a later thread could not be started,
    the program wrote nothing to standard error and the process ends in
    [std::terminate]. The failure line is there exactly when [execute]
    threw on line 114. And the loop body is entered: with a lower bound
    not above the upper bound, the first run is made or one of its threads
    is refused. *)
Theorem X10_sweep_report (p : platform) (env : Z -> world) (a : Arguments)
    (hw : Z) (fuel : nat) :
  let r := execute_on p env a hw fuel in
  let m := main_on p env a hw fuel in
  cout r = header a :: blocks env (times a) (reported r) /\
  (forall n, In n (reported r) -> run_coordinator (env n) (times a) n = run_ok) /\
  match leaving r with
  | as_status returned => cerr r = [] /\ m = ([], exit 0)
  | as_status thrown =>
      exists e n s l,
        e <> 0 /\ cerr r = [failure e] /\
        made r = l ++ [(n, s)] /\
        run_coordinator (env n) (times a) n = run_failed e /\
        m = ([from_execute (failure e); runtime_error thread_target_failed],
             exit 1)
  | as_status blocked | as_status pending => cerr r = [] /\ m = ([], unfinished)
  | system_error n =>
      cerr r = [] /\ 0 < n /\ p n 0 = false /\
      m = ([runtime_error thread_start_failed], exit 1)
  | terminate n nn =>
      cerr r = [] /\ 0 < nn < n /\ p n nn = false /\
      (forall i, 0 <= i < nn -> p n i = true) /\
      m = ([], aborted)
  end /\
  (cerr r <> [] <-> leaving r = as_status thrown) /\
  (snd m = exit 0 <-> leaving r = as_status returned) /\
  (snd m = exit 1 <->
   leaving r = as_status thrown \/ exists n, leaving r = system_error n) /\
  (snd m = aborted <-> exists n nn, leaving r = terminate n nn) /\
  (let thread_min := if threads a =? 0 then 1 else threads a in
   let thread_max := if threads a =? 0 then hw else threads a in
   let r1 := execute_on p env a hw (S fuel) in
   thread_min <= thread_max ->
   (exists s rest, made r1 = (thread_min, s) :: rest) \/
   (made r1 = [] /\
    (leaving r1 = system_error thread_min \/
     exists nn, leaving r1 = terminate thread_min nn))).
Proof.
  intros r m. unfold m, main_on. fold r.
  assert (Hrep : forall n, In n (reported r) ->
                           run_coordinator (env n) (times a) n = run_ok).
  { intros n Hn.
    assert (Hin : exists s, In (n, s) (made r)).
    { unfold reported in Hn.
      assert (Hm : In n (map fst (made r))).
      { destruct (leaving r) as [[]| |]; try exact Hn.
        - clear -Hn. induction (map fst (made r)) as [|x [|y l] IH];
            [destruct Hn | destruct Hn |].
          cbn [removelast] in Hn. fold (removelast (y :: l)) in Hn.
          destruct Hn as [->|Hn]; [left; reflexivity | right; apply IH; exact Hn].
        - clear -Hn. induction (map fst (made r)) as [|x [|y l] IH];
            [destruct Hn | destruct Hn |].
          cbn [removelast] in Hn. fold (removelast (y :: l)) in Hn.
          destruct Hn as [->|Hn]; [left; reflexivity | right; apply IH; exact Hn]. }
      apply in_map_iff in Hm as ([n' s] & Hfst & Hm). cbn [fst] in Hfst. subst n'.
      exists s. exact Hm. }
    destruct Hin as [s Hin]. unfold r, execute_on in Hin. cbn [made] in Hin.
    destruct (sweep_on_made _ _ _ _ _ _ _ _ Hin) as [_ H]. apply H.
    unfold r, execute_on, reported in Hn. cbn [made leaving] in Hn. exact Hn. }
  split; [|split; [exact Hrep|]]; [|clear Hrep]; unfold r, execute_on; cbv zeta.
  { set (lo := if threads a =? 0 then 1 else threads a).
    set (hi := if threads a =? 0 then hw else threads a).
    destruct (sweep_on_report p env (times a) hi fuel lo) as (Hout & _).
    cbv zeta in Hout. unfold reported in *. cbn [cout made leaving].
    rewrite Hout. reflexivity. }
  set (lo := if threads a =? 0 then 1 else threads a).
  set (hi := if threads a =? 0 then hw else threads a).
  assert (Hfirst : lo <= hi ->
            (exists s rest, made (sweep_on p env (times a) hi (S fuel) lo)
                            = (lo, s) :: rest) \/
            (made (sweep_on p env (times a) hi (S fuel) lo) = [] /\
             (leaving (sweep_on p env (times a) hi (S fuel) lo) = system_error lo \/
              exists nn, leaving (sweep_on p env (times a) hi (S fuel) lo)
                         = terminate lo nn))).
  { intros Hle. rewrite sweep_on_enter by exact Hle.
    destruct (emplace_all p lo) as [nn|].
    - right. cbn [made leaving]. split; [reflexivity|].
      destruct (nn =? 0); [left; reflexivity | right; eauto].
    - left. cbv zeta. destruct (run_coordinator (env lo) (times a) lo);
        cbn [made]; eauto. }
  destruct (sweep_on_report p env (times a) hi fuel lo) as (_ & _ & Herr).
  cbv zeta in Herr.
  set (r0 := sweep_on p env (times a) hi fuel lo) in *.
  cbn [cout cerr made leaving].
  destruct (leaving r0) as [[]|n|n nn] eqn:Hl; cbv beta iota in Herr.
  - rewrite Herr. cbn [map app snd].
    split; [split; reflexivity|]. split; [split; congruence|].
    split; [split; reflexivity|].
    split; [split; [discriminate | intros [H|[x H]]; discriminate H]|].
    split; [split; [discriminate | intros (x & y & H); discriminate H]|].
    exact Hfirst.
  - destruct Herr as (e & n & s & l & He0 & He & Hm & Hr). rewrite He.
    cbn [map app snd].
    split; [exists e, n, s, l; auto|]. split; [split; [reflexivity | discriminate]|].
    split; [split; discriminate|].
    split; [split; [left; reflexivity | reflexivity]|].
    split; [split; [discriminate | intros (x & y & H); discriminate H]|].
    exact Hfirst.
  - rewrite Herr. cbn [map app snd].
    split; [split; reflexivity|]. split; [split; congruence|].
    split; [split; discriminate|].
    split; [split; [discriminate | intros [H|[x H]]; discriminate H]|].
    split; [split; [discriminate | intros (x & y & H); discriminate H]|].
    exact Hfirst.
  - rewrite Herr. cbn [map app snd].
    split; [split; reflexivity|]. split; [split; congruence|].
    split; [split; discriminate|].
    split; [split; [discriminate | intros [H|[x H]]; discriminate H]|].
    split; [split; [discriminate | intros (x & y & H); discriminate H]|].
    exact Hfirst.
  - destruct Herr as [He Hemp]. rewrite He. cbn [map app snd].
    apply emplace_all_inv in Hemp as (Hr & Hno & _).
    split; [repeat split; [lia | exact Hno]|]. split; [split; congruence|].
    split; [split; discriminate|].
    split; [split; [right; eauto | reflexivity]|].
    split; [split; [discriminate | intros (x & y & H); discriminate H]|].
    exact Hfirst.
  - destruct Herr as (He & Hnz & Hemp). rewrite He. cbn [map app snd].
    apply emplace_all_inv in Hemp as (Hr & Hno & Hok).
    split; [repeat split; [lia | lia | exact Hno | exact Hok]|].
    split; [split; congruence|].
    split; [split; discriminate|].
    split; [split; [discriminate | intros [H|[x H]]; discriminate H]|].
    split; [split; [intros _; eauto | reflexivity]|].
    exact Hfirst.
Qed.

(** X10 where the second of two threads cannot be started, where the only
    thread cannot, and in a sweep whose second run cannot start its
    second thread. *)
Example refused_threads :
  let env := fun _ : Z => World always_ok round_robin 1 in
  execute_on (room_for 1) env (sample_args 100 2) 8 1
  = Outcome [header (sample_args 100 2)] [] [] (terminate 2 1) /\
  main_on (room_for 1) env (sample_args 100 2) 8 1 = ([], aborted) /\
  main_on (room_for 0) env (sample_args 100 1) 8 1
  = ([runtime_error thread_start_failed], exit 1) /\
  execute_on (room_for 1) env (sample_args 2 0) 8 9
  = Outcome (header (sample_args 2 0) :: report_block 2 1 1) []
            (states env 2 [1]) (terminate 2 1).
Proof. vm_compute. repeat split; reflexivity. Qed.

(** ** X11: the thread counts a sweep runs *)

Lemma sweep_runs_consecutive env times thread_max fuel :
  forall lo,
    0 <= lo -> thread_max < UINT_MAX ->
    let r := sweep env times thread_max fuel lo in
    runs r = seqZ lo (Z.of_nat (length (runs r))) /\
    (length (runs r) <= fuel)%nat /\
    (runs r <> [] -> lo + Z.of_nat (length (runs r)) - 1 <= thread_max).
Proof.
  induction fuel as [|fuel IH]; intros lo Hlo Hmax; cbn [sweep];
    destruct (lo <=? thread_max) eqn:Hle;
    try (cbv zeta; cbn [runs length]; split; [reflexivity|]; split; [lia|];
         intros Hne; contradiction).
  apply Z.leb_le in Hle.
  destruct (run_coordinator (env lo) times lo).
  - rewrite to_unsigned_id by lia.
    specialize (IH (lo + 1) ltac:(lia) Hmax). cbv zeta in IH |- *.
    destruct IH as (Hr & Hf & Hb). cbn [runs length].
    set (l := runs (sweep env times thread_max fuel (lo + 1))) in *.
    split; [|split; [lia|]].
    + rewrite (seqZ_cons lo) by lia. f_equal.
      replace (Z.succ lo) with (lo + 1) by lia.
      replace (Z.pred (Z.of_nat (S (length l)))) with (Z.of_nat (length l)) by lia.
      exact Hr.
    + intros _. destruct l as [|x l'] eqn:El; [cbn [length]; lia|].
      specialize (Hb ltac:(discriminate)). lia.
  - cbv zeta. cbn [runs length]. split; [reflexivity|]. split; [lia|]. intros _. lia.
  - cbv zeta. cbn [runs length]. split; [reflexivity|]. split; [lia|]. intros _. lia.
Qed.

(** X11: for a thread option and a hardware concurrency below 4294967295,
    the thread counts for which [execute] starts threads are consecutive
    and ascending from the lower bound (the thread option, or 1 when it is
    zero), never pass the upper bound (the thread option, or the hardware
    concurrency when it is zero), and are no more than the loop iterations
    followed, whatever the outcome of each run. *)
Theorem X11_runs_consecutive (env : Z -> world) (a : Arguments) (hw : Z) (fuel : nat) :
  0 <= threads a < UINT_MAX -> 0 <= hw < UINT_MAX ->
  let lo := if threads a =? 0 then 1 else threads a in
  let hi := if threads a =? 0 then hw else threads a in
  let r := execute env a hw fuel in
  runs r = seqZ lo (Z.of_nat (length (runs r))) /\
  (length (runs r) <= fuel)%nat /\
  (runs r <> [] -> lo + Z.of_nat (length (runs r)) - 1 <= hi).
Proof.
  intros Ht Hhw lo hi r. unfold r, execute. cbn [runs].
  apply (sweep_runs_consecutive env (times a) hi fuel lo).
  - unfold lo. destruct (threads a =? 0); lia.
  - unfold hi. destruct (threads a =? 0); lia.
Qed.

(** X11 for a sweep of 1 to 3 threads whose second run fails. *)
Lemma X11_witness :
  let r := execute fails_at_two (sample_args 1 0) 3 5 in
  runs r = [1; 2] /\
  runs r = seqZ 1 (Z.of_nat (length (runs r))) /\
  (length (runs r) <= 5)%nat /\
  (runs r <> [] -> 1 + Z.of_nat (length (runs r)) - 1 <= 3).
Proof.
  split; [vm_compute; reflexivity|].
  apply (X11_runs_consecutive fails_at_two (sample_args 1 0) 3 5);
    unfold UINT_MAX; cbn [threads sample_args]; lia.
Defined.

(** ** X12: a library that cannot build a context *)

Lemma no_context_built lib sched times n :
  (forall t h, getContext_ok lib t h = false) ->
  occurrences is_context (history (exec lib sched (start times n))) = 0.
Proof.
  intros Hlib. apply exec_invariant; [|reflexivity].
  intros tid s s' IH H. step_cases H; cbn [is_context]; try lia.
  rewrite Hlib in *. discriminate.
Qed.

(** X12: when [sws_getContext] fails for every worker of the first run of
    a sweep, then once the threads of that run have returned the error
    flag holds 1, no worker has touched the counter or converted, and
    [execute] has printed the header and the line "failure: 1" and thrown
    without any report block; [main] exits with status 1. *)
Theorem X12_context_never_built (env : Z -> world) (a : Arguments) (hw : Z)
    (fuel : nat) :
  let n := if threads a =? 0 then 1 else threads a in
  let s := exec (lib (env n)) (schedule (env n)) (start (times a) n) in
  (forall t h, getContext_ok (lib (env n)) t h = false) ->
  0 <= threads a -> (threads a = 0 -> 1 <= hw) ->
  joined s = true ->
  error s = 1 /\
  occurrences is_fetch (history s) = 0 /\ conversions s = 0 /\
  execute env a hw (S fuel) = Sweep [header a] [failure 1] [n] thrown /\
  main env a hw (S fuel) = Some 1.
Proof.
  intros n s Hlib Ht Hhw Hj.
  assert (Hn : 1 <= n) by (unfold n; destruct (threads a =? 0) eqn:E; zbool; lia).
  pose proof (no_context_built _ (schedule (env n)) (times a) n Hlib) as Hctx.
  fold s in Hctx.
  assert (Hnone : forall t, existsb is_context (events_of t (history s)) = false).
  { intros t. destruct (existsb is_context (events_of t (history s))) eqn:E;
      [|reflexivity].
    apply occurrences_events_of in E. lia. }
  (* every worker stopped at its first call *)
  assert (Hall : forall t w, thread_pool s !! t = Some w ->
            err w = 1 /\
            events_of t (history s)
            = [sws_freeContext; av_frame_free Dst; av_frame_free Src;
               error_store 1; sws_getContext false]).
  { intros t w Hw. pose proof (joined_lookup _ _ _ Hj Hw) as Hpc.
    pose proof (lifecycle_exec _ (schedule (env n)) (times a) n _ _ Hw) as HL.
    fold s in HL. unfold lifecycle in HL. rewrite Hpc in HL.
    destruct HL as (b & Hb & Hev). specialize (Hnone t). rewrite Hev in Hnone.
    cbn [existsb is_context orb] in Hnone.
    rewrite existsb_app in Hnone. apply orb_false_iff in Hnone as [_ Hnone].
    destruct Hb as [(He & Hf)|(_ & Hl)].
    - destruct Hf as [(H1 & ->)|[(_ & ->)|[(_ & ->)|[(_ & ->)|(_ & ->)]]]];
        try (cbn in Hnone; discriminate).
      rewrite H1 in *. split; [reflexivity | exact Hev].
    - exfalso.
      destruct Hl as [(u & loop & _ & _ & ->)|(r & u & loop & _ & _ & _ & ->)];
        cbn [existsb is_context orb] in Hnone;
        rewrite existsb_app in Hnone;
        apply orb_false_iff in Hnone as [_ Hnone]; discriminate. }
  assert (Hlen : length (thread_pool s) = Z.to_nat n)
    by (unfold s; rewrite exec_length; apply start_length).
  destruct (lookup_lt_is_Some_2 (thread_pool s) 0 ltac:(lia)) as [w0 Hw0].
  assert (Herr : error s = 1).
  { destruct (flag_owner (lib (env n)) (schedule (env n)) (times a) n)
      as [Hz|(t & w & Hw & _ & He)].
    - fold s in Hz. exfalso. destruct (sound_exec (lib (env n)) (schedule (env n)) (times a) n)
        as [HT _]. fold s in HT. specialize (HT _ _ Hw0).
      unfold thread_inv in HT. rewrite (joined_lookup _ _ _ Hj Hw0) in HT.
      destruct HT as (HT & _). destruct (Hall _ _ Hw0) as [_ Hev].
      destruct HT as (He & _); [rewrite Hev; reflexivity | contradiction].
    - fold s in Hw, He. destruct (Hall _ _ Hw) as [H1 _]. congruence. }
  assert (Hquiet : forall p, p sws_freeContext = false ->
            p (av_frame_free Dst) = false -> p (av_frame_free Src) = false ->
            p (error_store 1) = false -> p (sws_getContext false) = false ->
            occurrences p (history s) = 0).
  { intros p H1 H2 H3 H4 H5.
    pose proof (occurrences_nonneg p (history s)) as Hnn.
    destruct (Z.eq_dec (occurrences p (history s)) 0) as [Hz|Hz]; [exact Hz|].
    exfalso. destruct (occurrences_positive p (history s) ltac:(lia)) as [t Hp].
    destruct (thread_pool s !! t) as [w|] eqn:Hw.
    - destruct (Hall _ _ Hw) as [_ Hev]. rewrite Hev in Hp.
      cbn [existsb] in Hp. rewrite H1, H2, H3, H4, H5 in Hp. discriminate.
    - pose proof (no_ghost_events _ (schedule (env n)) (times a) n t Hw) as Hg.
      fold s in Hg. rewrite Hg in Hp. discriminate. }
  assert (Hrun : run_coordinator (env n) (times a) n = run_failed 1).
  { rewrite <- Herr. apply run_coordinator_failed; [exact Hj|].
    fold s. rewrite Herr. discriminate. }
  assert (Hexec : execute env a hw (S fuel) = Sweep [header a] [failure 1] [n] thrown).
  { unfold execute. fold n.
    rewrite sweep_enter by (destruct (threads a =? 0) eqn:E; zbool; [apply Hhw; exact E | lia]).
    rewrite Hrun. reflexivity. }
  split; [exact Herr|]. split; [apply Hquiet; reflexivity|].
  split; [apply Hquiet; reflexivity|]. split; [exact Hexec|].
  unfold main. rewrite Hexec. reflexivity.
Qed.

(** X12 for a sweep of 1 to 4 threads. *)
Lemma X12_witness :
  let env := fun _ : Z => World no_context round_robin 1 in
  let s := exec no_context round_robin (start 100 1) in
  error s = 1 /\
  occurrences is_fetch (history s) = 0 /\ conversions s = 0 /\
  execute env (sample_args 100 0) 4 1
  = Sweep [header (sample_args 100 0)] [failure 1] [1] thrown /\
  main env (sample_args 100 0) 4 1 = Some 1.
Proof.
  intros env s.
  apply (X12_context_never_built env (sample_args 100 0) 4 0).
  - reflexivity.
  - cbn [threads sample_args]. lia.
  - lia.
  - vm_compute. reflexivity.
Defined.
